(** * Klio: pipeline assembly, existence-check stages and event IO

    A shallow embedding of the parts of Klio that wire the data-existence
    filters around a job's [run] callable, together with the per-element
    wrapping of the existence-check transforms and the text / avro event IO:

    - [klio_exec/commands/run.py]   : [KlioPipeline._setup_data_io_filters],
      [_generate_input_conf_names], [_generate_pcoll_per_input],
      [_generate_pcoll], [_setup_pipeline];
    - [klio/transforms/_helpers.py] : [_wrap_process],
      [_KlioBaseDataExistenceCheck._get_absolute_path],
      [_KlioGcsCheckExistsBase.process];
    - [klio/transforms/io.py]       : [_KlioReadFromTextSource.read_records],
      [_KlioTextSink.write_record], [KlioReadFromAvro._get_file_pattern].

    Conventions.  Python [bytes] are [list byte]; Python [str] is [string];
    a raised exception is the [Raise] case of [result]; a Beam PCollection is
    denoted by the list of its elements (a bag: the order of the list carries
    no meaning, and statements about streams are up to [Permutation]); a
    transform applied to a PCollection is denoted by its effect on that bag.
    Transform labels only name the nodes of the graph and are not part of the
    denotation.  The metaclass of the existence-check transforms installs
    [_wrap_process(process)] as their [process]; that installed entry point
    is what is modelled. *)

From Stdlib Require Import List String Ascii Strings.Byte Bool Arith NArith ZArith Lia.
From Stdlib Require Import Permutation DecimalString.
From Equations Require Import Equations.
Import ListNotations.

Local Open Scope string_scope.
Local Open Scope list_scope.

(** ** Python preliminaries *)

Definition bytes := list byte.

(** The exception classes that occur in the modelled code.  [SystemExit] and
    [KeyboardInterrupt] derive from [BaseException] only; every other class
    derives from [Exception]. *)
Inductive exn : Type :=
| SystemExit (code : Z)
| KeyboardInterrupt
| KlioMissingConfiguration (msg : string)
| LookupError (msg : string)
| MalformedEnvelope (msg : string)
| UnicodeMalformedEnvelope
| IndexError
| KeyError (key : string)
| ValueError (msg : string)
| RuntimeError (msg : string).

(** [isinstance(e, Exception)]: what an [except Exception] clause catches. *)
Definition is_Exception (e : exn) : bool :=
  match e with
  | SystemExit _ | KeyboardInterrupt => false
  | _ => true
  end.

Inductive result (A : Type) : Type :=
| Ok (a : A)
| Raise (e : exn).
Arguments Ok {A} a.
Arguments Raise {A} e.

Definition bind {A B : Type} (r : result A) (k : A -> result B) : result B :=
  match r with
  | Ok a => k a
  | Raise e => Raise e
  end.

Notation "x <- r ;; k" := (bind r (fun x => k))
  (at level 61, r at next level, right associativity).
Notation "' p <- r ;; k" := (bind r (fun p => k))
  (at level 61, p pattern, r at next level, right associativity).

(** [xs[0]] on a Python list. *)
Definition index0 {A : Type} (xs : list A) : result A :=
  match xs with
  | x :: _ => Ok x
  | [] => Raise IndexError
  end.

(** Truth value of an optional string: [None] and [""] are falsy. *)
Definition truthy (o : option string) : bool :=
  match o with
  | Some EmptyString => false
  | Some (String _ _) => true
  | None => false
  end.

Definition startswith_sep (s : string) : bool :=
  match s with
  | String "/" _ => true
  | _ => false
  end.

Fixpoint endswith_sep (s : string) : bool :=
  match s with
  | EmptyString => false
  | String c EmptyString => Ascii.eqb c "/"
  | String _ rest => endswith_sep rest
  end.

(** [os.path.join(a, b)] of [posixpath], for two components. *)
Definition os_path_join (a b : string) : string :=
  if startswith_sep b then b
  else if (match a with EmptyString => true | _ => false end) || endswith_sep a
       then a ++ b
       else a ++ "/" ++ b.

(** ** klio/transforms/io.py: [KlioReadFromAvro._get_file_pattern] *)

Definition missing_avro_keys_msg : string :=
  "Must configure at least one of the following keys when reading from avro: `file_pattern`, `location`.".

Definition _get_file_pattern (file_pattern location : option string)
    (show_unpublished : bool) : result (option string) :=
  if negb (truthy file_pattern || truthy location) then
    Raise (KlioMissingConfiguration missing_avro_keys_msg)
  else if truthy file_pattern && truthy location then
    match file_pattern, location with
    | Some f, Some l => Ok (Some (os_path_join l f))
    | _, _ => Ok file_pattern
    end
  else
    match file_pattern with
    | None => Ok location
    | Some _ => Ok file_pattern
    end.

(** ** The message envelope

    The fields of [klio_pb2.KlioMessage] that the modelled code and the spec
    name: [version], [metadata] (the ping and force markers; recipients and
    audit trail are opaque here) and [data.v2] ([element], [payload]). *)

Record Metadata : Type := mkMetadata {
  ping : bool;
  force : bool;
  recipients : bytes;
  job_audit_log : bytes
}.

Record DataV2 : Type := mkDataV2 {
  element : bytes;
  payload : bytes
}.

Record KlioMessage : Type := mkKlioMessage {
  version : N;
  metadata : Metadata;
  data_v2 : DataV2
}.

(** [klio_pb2.KlioMessage()]: every field at its default. *)
Definition new_KlioMessage : KlioMessage :=
  mkKlioMessage 0 (mkMetadata false false [] []) (mkDataV2 [] []).

(** [message.data.v2.element = b]. *)
Definition set_element (m : KlioMessage) (b : bytes) : KlioMessage :=
  mkKlioMessage (version m) (metadata m) (mkDataV2 b (payload (data_v2 m))).

(** ** Job configuration

    [klio_core]'s configuration objects, by the attributes the modelled code
    reads. *)

Definition IoKwargs := list (string * string).

Record DataConfig : Type := mkDataConfig {
  location : string;
  file_suffix : string;
  skip_klio_existence_check : bool
}.

Module EventInput.
Record t : Type := mk {
  name : string;
  skip_klio_read : bool;
  to_io_kwargs : IoKwargs
}.
End EventInput.

Module EventOutput.
Record t : Type := mk {
  name : string;
  skip_klio_write : bool;
  to_io_kwargs : IoKwargs
}.
End EventOutput.

Record JobConfig : Type := mkJobConfig {
  event_inputs : list EventInput.t;
  event_outputs : list EventOutput.t;
  data_inputs : list DataConfig;
  data_outputs : list DataConfig
}.

Record PipelineOptions : Type := mkPipelineOptions {
  streaming : bool
}.

Record KlioConfig : Type := mkKlioConfig {
  job_config : JobConfig;
  pipeline_options : PipelineOptions;
  config_version : N
}.

(** ** Streams, tagged outputs and generators *)

Definition PCollection := list bytes.

(** [pvalue.TaggedOutput(tag, value)]. *)
Definition TaggedOutput := (string * bytes)%type.

Inductive LogRecord : Type :=
| log_info (msg : string)
| log_error (fmt : string) (incoming_item : bytes) (err : exn) (exc_info : bool).

(** What driving a generator to its end produces: the items it yielded, the
    records it logged, and the exception that ended it, if one did. *)
Record Yielded (A : Type) : Type := mkYielded {
  yielded : list A;
  logged : list LogRecord;
  raised : option exn
}.
Arguments mkYielded {A} _ _ _.
Arguments yielded {A} _.
Arguments logged {A} _.
Arguments raised {A} _.

(** A DoFn's per-element entry point, [process(self, element)]. *)
Definition DoFn := bytes -> Yielded TaggedOutput.

(** [pcoll | beam.ParDo(dofn).with_outputs()]: the tagged outputs of every
    element.  An element whose entry point ends in an exception contributes
    what it yielded before; what becomes of the failed element is the
    runner's retry policy and is not part of the stream. *)
Definition ParDo (fn : DoFn) (pcoll : PCollection) : list TaggedOutput :=
  flat_map (fun x => yielded (fn x)) pcoll.

(** [outputs.<tag>]: the PCollection of one tag. *)
Definition with_tag (tag : string) (outputs : list TaggedOutput) : PCollection :=
  map snd (filter (fun o => String.eqb (fst o) tag) outputs).

(** [pcolls | beam.Flatten()] on a tuple or list of PCollections.  Applied to
    an empty list there is no pipeline to attach the transform to, and Beam
    raises [ValueError]. *)
Definition Flatten (pcolls : list PCollection) : result PCollection :=
  match pcolls with
  | [] => Raise (ValueError "requires a pipeline to be specified as there are no deferred inputs.")
  | _ => Ok (List.concat pcolls)
  end.

(** ** Collaborators

    [Runtime] gathers what lies outside the repository: the object store
    behind [gcsio.GcsIO().exists], Python's UTF-8 codec and identifier test,
    the user's [run.py] and the elements the event sources deliver. *)

Inductive Pipeline : Type := BeamPipeline.

Inductive PValueish : Type :=
| ThePipeline (p : Pipeline)
| PColl (pcoll : PCollection).

Inductive ToProcess : Type :=
| Single (v : PValueish)
| MultiInputPCollTuple (fields : list (string * PValueish)).

Definition RunCallable := ToProcess -> KlioConfig -> result PCollection.

Inductive ReadTransform : Type :=
| ReadFromPubSub | KlioReadFromText | KlioReadFromBigQuery | KlioReadFromAvro.

Inductive WriteTransform : Type :=
| WriteToPubSub | KlioWriteToText | KlioWriteToBigQuery.

Inductive LoadFailure : Type := ImportError | IOError | OtherFailure (e : exn).

Record Runtime : Type := mkRuntime {
  (** [self.client.exists(path)] *)
  gcs_exists : string -> result bool;
  (** [element.decode("utf-8")] *)
  bytes_decode_utf8 : bytes -> result string;
  (** [str.isidentifier()] *)
  str_isidentifier : string -> bool;
  (** [imp.load_source("run", "./run.py")], then the module's [run_basic]
      and [run] attributes *)
  load_run_module : LoadFailure + (option RunCallable * option RunCallable);
  (** [pipeline | label >> transform_cls_in(.. kwargs)]: the elements read *)
  apply_read : ReadTransform -> IoKwargs -> result PCollection;
  (** [to_output | transform_cls_out(.. kwargs)] *)
  apply_write : WriteTransform -> IoKwargs -> PCollection -> result unit
}.

(** [KlioLib] gathers the code of the repository that the modelled functions
    call and that lies outside the modelled files: the generated protobuf
    codec of [klio_core.proto.klio_pb2], [klio.message_handler.v2] and the
    marker filters of [klio.transforms.helpers]. *)
Record KlioLib : Type := mkKlioLib {
  SerializeToString : KlioMessage -> bytes;
  ParseFromString : bytes -> result KlioMessage;
  _to_klio_message : bytes -> KlioConfig -> result KlioMessage;
  KlioFilterPing : KlioConfig -> DoFn;
  KlioFilterForce : KlioConfig -> DoFn;
  KlioDrop : KlioConfig -> DoFn
}.

(** ** klio/transforms/_helpers.py *)

Inductive DataExistState : Type := FOUND | NOT_FOUND.

Definition DataExistState_value (s : DataExistState) : string :=
  match s with
  | FOUND => "found"
  | NOT_FOUND => "not_found"
  end.

Definition DataExistState_to_str (attr : DataExistState) : string :=
  match attr with
  | NOT_FOUND => "not found"
  | _ => "found"
  end.

Inductive KlioIODirection : Type := INPUT | OUTPUT.

Definition KlioIODirection_value (d : KlioIODirection) : string :=
  match d with
  | INPUT => "input"
  | OUTPUT => "output"
  end.

Inductive TaggedStates : Type := PROCESS | PASS_THRU | DEFAULT.

Definition TaggedStates_value (t : TaggedStates) : string :=
  match t with
  | PROCESS => "process"
  | PASS_THRU => "pass_thru"
  | DEFAULT => "tag_not_set"
  end.

(** [str.title()] on ASCII text. *)
Definition is_ascii_lower (c : ascii) : bool :=
  let n := nat_of_ascii c in (97 <=? n)%nat && (n <=? 122)%nat.

Definition is_ascii_upper (c : ascii) : bool :=
  let n := nat_of_ascii c in (65 <=? n)%nat && (n <=? 90)%nat.

Definition ascii_upper (c : ascii) : ascii :=
  if is_ascii_lower c then ascii_of_nat (nat_of_ascii c - 32) else c.

Definition ascii_lower (c : ascii) : ascii :=
  if is_ascii_upper c then ascii_of_nat (nat_of_ascii c + 32) else c.

Fixpoint title_from (previous_is_cased : bool) (s : string) : string :=
  match s with
  | EmptyString => EmptyString
  | String c rest =>
      if is_ascii_lower c || is_ascii_upper c then
        String (if previous_is_cased then ascii_lower c else ascii_upper c)
               (title_from true rest)
      else String c (title_from false rest)
  end.

Definition str_title (s : string) : string := title_from false s.

Definition dropping_fmt : string :=
  "Dropping KlioMessage - exception occurred when serializing '%s' to a KlioMessage."
  ++ String (ascii_of_nat 10) "Error: %s".

(** [_wrap_process(meth)]: the generator [wrapper(self, incoming_item)].
    Both the conversion to a KlioMessage and [yield from meth(self, kmsg)]
    stand inside the [try]; the [except Exception] clause logs and returns.
    Items that [meth] yielded before it raised have already been handed
    on. *)
Definition _wrap_process (lib : KlioLib) (config : KlioConfig)
    (meth : KlioMessage -> Yielded TaggedOutput) : DoFn :=
  fun incoming_item =>
    let except (done : list TaggedOutput) (logs : list LogRecord) (err : exn) :=
      if is_Exception err then
        mkYielded done (logs ++ [log_error dropping_fmt incoming_item err true]) None
      else mkYielded done logs (Some err) in
    match _to_klio_message lib incoming_item config with
    | Raise err => except [] [] err
    | Ok kmsg =>
        let r := meth kmsg in
        match raised r with
        | Some err => except (yielded r) (logged r) err
        | None => r
        end
    end.

(** [_KlioInputDataMixin._data_config] and [_KlioOutputDataMixin._data_config]. *)
Definition _data_config (config : KlioConfig) (direction : KlioIODirection)
    : result DataConfig :=
  match direction with
  | INPUT => index0 (data_inputs (job_config config))
  | OUTPUT => index0 (data_outputs (job_config config))
  end.

Definition _location (config : KlioConfig) (direction : KlioIODirection)
    : result string :=
  c <- _data_config config direction ;; Ok (location c).

Definition _suffix (config : KlioConfig) (direction : KlioIODirection)
    : result string :=
  c <- _data_config config direction ;; Ok (file_suffix c).

Definition _get_absolute_path (rt : Runtime) (config : KlioConfig)
    (direction : KlioIODirection) (elem : bytes) : result string :=
  loc <- _location config direction ;;
  decoded <- bytes_decode_utf8 rt elem ;;
  suffix <- _suffix config direction ;;
  Ok (os_path_join loc (decoded ++ suffix)).

(** [_KlioGcsDataExistsMixin.exists]. *)
Definition exists_ (rt : Runtime) (path : string) : result bool :=
  gcs_exists rt path.

(** [_KlioGcsCheckExistsBase.process(self, kmsg)], a generator. *)
Definition process (rt : Runtime) (lib : KlioLib) (config : KlioConfig)
    (direction : KlioIODirection) (kmsg : KlioMessage) : Yielded TaggedOutput :=
  let item := element (data_v2 kmsg) in
  match _get_absolute_path rt config direction item with
  | Raise e => mkYielded [] [] (Some e)
  | Ok item_path =>
      match exists_ rt item_path with
      | Raise e => mkYielded [] [] (Some e)
      | Ok item_exists =>
          let state := if negb item_exists then NOT_FOUND else FOUND in
          mkYielded
            [(DataExistState_value state, SerializeToString lib kmsg)]
            [log_info (str_title (KlioIODirection_value direction) ++ " "
                       ++ DataExistState_to_str state ++ " at " ++ item_path)]
            None
      end
  end.

(** The per-element entry point of an existence-check transform: the
    metaclass replaces [process] by [_wrap_process(process)]. *)
Definition check_exists_entry (rt : Runtime) (lib : KlioLib)
    (config : KlioConfig) (direction : KlioIODirection) : DoFn :=
  _wrap_process lib config (process rt lib config direction).

(** [_KlioGcsCheckExistsBase] combined with [_KlioInputDataMixin], resp.
    [_KlioOutputDataMixin], as the class docstrings prescribe. *)
Definition KlioGcsCheckInputExists (rt : Runtime) (lib : KlioLib)
    (config : KlioConfig) : DoFn :=
  check_exists_entry rt lib config INPUT.

Definition KlioGcsCheckOutputExists (rt : Runtime) (lib : KlioLib)
    (config : KlioConfig) : DoFn :=
  check_exists_entry rt lib config OUTPUT.

(** ** klio/transforms/io.py: text source and sink *)

(** [_KlioReadFromTextSource.read_records]: one serialized KlioMessage per
    record of the underlying text source.  A [str] record is held as its
    UTF-8 bytes, so [record.encode("utf-8")] is [list_byte_of_string]. *)
Definition read_record (lib : KlioLib) (record : string) : bytes :=
  let record_as_bytes := list_byte_of_string record in
  let message := set_element new_KlioMessage record_as_bytes in
  SerializeToString lib message.

Definition read_records (lib : KlioLib) (records : list string) : PCollection :=
  map (read_record lib) records.

(** [_KlioTextSink.write_record]: the bytes handed to
    [write_encoded_record]. *)
Definition write_record (lib : KlioLib) (encoded_element : bytes) : result bytes :=
  message <- ParseFromString lib encoded_element ;;
  Ok (element (data_v2 message)).

(** ** klio_exec/commands/run.py *)

(** A Python [dict] with string keys, in insertion order. *)
Fixpoint dict_get {A : Type} (d : list (string * A)) (key : string) : result A :=
  match d with
  | [] => Raise (KeyError key)
  | (k, v) :: rest => if String.eqb k key then Ok v else dict_get rest key
  end.

Fixpoint dict_set {A : Type} (d : list (string * A)) (key : string) (v : A)
    : list (string * A) :=
  match d with
  | [] => [(key, v)]
  | (k, w) :: rest =>
      if String.eqb k key then (k, v) :: rest else (k, w) :: dict_set rest key v
  end.

Record EventMapper : Type := mkEventMapper {
  mapper_input : list (string * ReadTransform);
  mapper_output : list (string * WriteTransform)
}.

Definition StreamingEventMapper : EventMapper :=
  mkEventMapper [("pubsub", ReadFromPubSub)] [("pubsub", WriteToPubSub)].

Definition BatchEventMapper : EventMapper :=
  mkEventMapper
    [("file", KlioReadFromText); ("bq", KlioReadFromBigQuery);
     ("avro", KlioReadFromAvro)]
    [("file", KlioWriteToText); ("bq", KlioWriteToBigQuery)].

Definition _has_event_inputs (config : KlioConfig) : bool :=
  (0 <? List.length (event_inputs (job_config config)))%nat.

Definition _has_multi_event_inputs (config : KlioConfig) : bool :=
  (1 <? List.length (event_inputs (job_config config)))%nat.

Definition _has_event_outputs (config : KlioConfig) : bool :=
  (0 <? List.length (event_outputs (job_config config)))%nat.

Definition _io_mapper (config : KlioConfig) : EventMapper :=
  if negb (streaming (pipeline_options config)) then BatchEventMapper
  else StreamingEventMapper.

(** [_get_run_callable]: [run_basic] is preferred over [run]; a module with
    neither, or one that cannot be imported, ends in [SystemExit(1)]. *)
Definition _get_run_callable (rt : Runtime) : result RunCallable :=
  match load_run_module rt with
  | inr (run_basic_callable, run_callable) =>
      match run_basic_callable, run_callable with
      | None, None => Raise (SystemExit 1)
      | Some rb, _ => Ok rb
      | None, Some r => Ok r
      end
  | inl ImportError | inl IOError => Raise (SystemExit 1)
  | inl (OtherFailure e) => Raise e
  end.

(** The two streams that [_setup_data_io_filters] hands to the input filter
    stage, before that stage: the output-existence and force filters when
    the output's existence check is not skipped, the ping split alone
    otherwise. *)
Definition output_filter_stage (rt : Runtime) (lib : KlioLib)
    (config : KlioConfig) (data_output_config : DataConfig)
    (pings : list TaggedOutput) : result (PCollection * PCollection) :=
  if negb (skip_klio_existence_check data_output_config) then
    let output_exists :=
      ParDo (KlioGcsCheckOutputExists rt lib config) (with_tag "process" pings) in
    let output_force :=
      ParDo (KlioFilterForce lib config) (with_tag "found" output_exists) in
    to_pass_thru <-
      Flatten [with_tag "pass_thru" pings; with_tag "pass_thru" output_force] ;;
    to_filter_input <-
      Flatten [with_tag "not_found" output_exists;
               with_tag "process" output_force] ;;
    Ok (to_pass_thru, to_filter_input)
  else Ok (with_tag "pass_thru" pings, with_tag "process" pings).

Definition input_filter_stage (rt : Runtime) (lib : KlioLib)
    (config : KlioConfig) (data_input_config : DataConfig)
    (to_filter_input : PCollection) : PCollection :=
  if negb (skip_klio_existence_check data_input_config) then
    let input_exists :=
      ParDo (KlioGcsCheckInputExists rt lib config) to_filter_input in
    let _ := ParDo (KlioDrop lib config) (with_tag "not_found" input_exists) in
    with_tag "found" input_exists
  else to_filter_input.

Definition _setup_data_io_filters (rt : Runtime) (lib : KlioLib)
    (config : KlioConfig) (in_pcol : PCollection) (label_prefix : option string)
    : result (PCollection * PCollection) :=
  if (1 <? List.length (data_inputs (job_config config)))%nat
     || (1 <? List.length (data_outputs (job_config config)))%nat
  then Raise (SystemExit 1)
  else
    data_input_config <- index0 (data_inputs (job_config config)) ;;
    data_output_config <- index0 (data_outputs (job_config config)) ;;
    let pings := ParDo (KlioFilterPing lib config) in_pcol in
    ' (to_pass_thru, to_filter_input) <-
      output_filter_stage rt lib config data_output_config pings ;;
    let to_process :=
      input_filter_stage rt lib config data_input_config to_filter_input in
    Ok (to_process, to_pass_thru).

(** [str(index)]. *)
Definition str_of_nat (n : nat) : string :=
  NilEmpty.string_of_uint (Nat.to_uint n).

Fixpoint enumerate_from {A : Type} (start : nat) (xs : list A) : list (nat * A) :=
  match xs with
  | [] => []
  | x :: rest => (start, x) :: enumerate_from (S start) rest
  end.

Definition _generate_input_conf_names (config : KlioConfig)
    : list (string * EventInput.t) :=
  fold_left
    (fun input_dict '(index, ev) =>
       dict_set input_dict (EventInput.name ev ++ str_of_nat index) ev)
    (enumerate_from 0 (event_inputs (job_config config)))
    [].

(** [collections.namedtuple(typename, field_names)] rejects a field name
    that is not an identifier, is a keyword, starts with an underscore or
    occurs twice.  The names given here are dictionary keys ending in a
    decimal digit: none is a keyword and none occurs twice. *)
Definition namedtuple (rt : Runtime) (field_names : list string)
    : result (list string) :=
  if forallb
       (fun n => str_isidentifier rt n
                 && negb (match n with String "_" _ => true | _ => false end))
       field_names
  then Ok field_names
  else Raise (ValueError "Type names and field names must be valid identifiers").

Definition _generate_pcoll (rt : Runtime) (lib : KlioLib) (config : KlioConfig)
    (pipeline : Pipeline) (input_config : EventInput.t)
    (label_prefix : option string) : result (PValueish * option PCollection) :=
  if EventInput.skip_klio_read input_config then Ok (ThePipeline pipeline, None)
  else
    transform_cls_in <-
      dict_get (mapper_input (_io_mapper config)) (EventInput.name input_config) ;;
    in_pcol <- apply_read rt transform_cls_in (EventInput.to_io_kwargs input_config) ;;
    ' (to_process, to_pass_thru) <-
      _setup_data_io_filters rt lib config in_pcol label_prefix ;;
    Ok (PColl to_process, Some to_pass_thru).

(** The [for] loop of [_generate_pcoll_per_input], threading
    [input_name_to_input_pcolls] and [multi_to_pass_thru].  A PCollection
    object is truthy, so [if input_to_pass_thru:] tests for [None]. *)
Fixpoint per_input_loop (rt : Runtime) (lib : KlioLib) (config : KlioConfig)
    (pipeline : Pipeline) (inputs : list (string * EventInput.t))
    (input_name_to_input_pcolls : list (string * PValueish))
    (multi_to_pass_thru : list PCollection)
    : result (list (string * PValueish) * list PCollection) :=
  match inputs with
  | [] => Ok (input_name_to_input_pcolls, multi_to_pass_thru)
  | (input_name, input_conf) :: rest =>
      ' (input_to_process, input_to_pass_thru) <-
        _generate_pcoll rt lib config pipeline input_conf (Some input_name) ;;
      let multi_to_pass_thru' :=
        match input_to_pass_thru with
        | Some pt => multi_to_pass_thru ++ [pt]
        | None => multi_to_pass_thru
        end in
      per_input_loop rt lib config pipeline rest
        (dict_set input_name_to_input_pcolls input_name input_to_process)
        multi_to_pass_thru'
  end.

Definition _generate_pcoll_per_input (rt : Runtime) (lib : KlioLib)
    (config : KlioConfig) (pipeline : Pipeline)
    : result (ToProcess * PCollection) :=
  let inputs := _generate_input_conf_names config in
  _ <- namedtuple rt (map fst inputs) ;;
  ' (input_name_to_input_pcolls, multi_to_pass_thru) <-
    per_input_loop rt lib config pipeline inputs [] [] ;;
  let to_process := MultiInputPCollTuple input_name_to_input_pcolls in
  to_pass_thru <- Flatten multi_to_pass_thru ;;
  Ok (to_process, to_pass_thru).

(** What [_setup_pipeline] attaches to the pipeline: the value given to the
    run callable, the callable's output, and the stream handed to the output
    transform, when there is one. *)
Record Assembled : Type := mkAssembled {
  callable_input : ToProcess;
  callable_output : PCollection;
  output_stage : option (WriteTransform * PCollection)
}.

Definition _setup_pipeline (rt : Runtime) (lib : KlioLib) (config : KlioConfig)
    (pipeline : Pipeline) : result Assembled :=
  run_callable <- _get_run_callable rt ;;
  ' (to_process, to_pass_thru) <-
    (if _has_event_inputs config then
       if negb (_has_multi_event_inputs config) then
         input_config <- index0 (event_inputs (job_config config)) ;;
         ' (tp, pt) <- _generate_pcoll rt lib config pipeline input_config None ;;
         Ok (Single tp, pt)
       else
         ' (tp, pt) <- _generate_pcoll_per_input rt lib config pipeline ;;
         Ok (tp, Some pt)
     else Ok (Single (ThePipeline pipeline), None)) ;;
  out_pcol <- run_callable to_process config ;;
  if _has_event_outputs config then
    output_config <- index0 (event_outputs (job_config config)) ;;
    if negb (EventOutput.skip_klio_write output_config) then
      transform_cls_out <-
        dict_get (mapper_output (_io_mapper config))
                 (EventOutput.name output_config) ;;
      to_output <-
        match to_pass_thru with
        | Some pt => Flatten [out_pcol; pt]
        | None => Ok out_pcol
        end ;;
      _ <- apply_write rt transform_cls_out
             (EventOutput.to_io_kwargs output_config) to_output ;;
      Ok (mkAssembled to_process out_pcol (Some (transform_cls_out, to_output)))
    else Ok (mkAssembled to_process out_pcol None)
  else Ok (mkAssembled to_process out_pcol None).

(** ** The collaborators as the specification describes them *)

Module SpecLib.

Local Open Scope N_scope.

Definition byte_of_N (n : N) : byte :=
  match Byte.of_N n with
  | Some b => b
  | None => x00
  end.

Definition inspect {A : Type} (a : A) : {b : A | a = b} := exist _ a eq_refl.

(** Modelled from the spec: the length prefix of "a length-prefixed ...
    binary blob" ([klio_core.proto.klio_pb2] is missing).  A number is
    written in base 128, low digit first, the high bit of a byte saying
    that another byte follows. *)
Equations? encode_varint (n : N) : bytes by wf (N.to_nat n) lt :=
  encode_varint n with inspect (n <? 128) => {
    | exist _ true _ := [byte_of_N n];
    | exist _ false Hge :=
        byte_of_N (128 + n mod 128) :: encode_varint (n / 128) }.
Proof.
  apply N.ltb_ge in Hge.
  assert (n / 128 < n) by (apply N.div_lt; lia).
  lia.
Qed.

Fixpoint decode_varint (raw : bytes) : result (N * bytes) :=
  match raw with
  | [] => Raise (MalformedEnvelope "truncated length")
  | b :: rest =>
      let v := Byte.to_N b in
      if v <? 128 then Ok (v, rest)
      else
        ' (high, rest') <- decode_varint rest ;;
        Ok (v - 128 + 128 * high, rest')
  end.

Definition encode_bool (b : bool) : bytes := [if b then x01 else x00].

Definition decode_bool (raw : bytes) : result (bool * bytes) :=
  match raw with
  | x00 :: rest => Ok (false, rest)
  | x01 :: rest => Ok (true, rest)
  | _ => Raise (MalformedEnvelope "bad marker")
  end.

Definition encode_bytes (b : bytes) : bytes :=
  encode_varint (N.of_nat (List.length b)) ++ b.

Definition decode_bytes (raw : bytes) : result (bytes * bytes) :=
  ' (n, rest) <- decode_varint raw ;;
  if N.of_nat (List.length rest) <? n then Raise (MalformedEnvelope "truncated field")
  else Ok (firstn (N.to_nat n) rest, skipn (N.to_nat n) rest).

(** Modelled from the spec: the Envelope Codec's [encode]
    ([klio_core.proto.klio_pb2] is missing), total, a "binary
    serialization of {version: int, payload: bytes, metadata:
    {recipients, audit-trail}}" in length-prefixed form, with the
    force/ping marker "carried in its metadata". *)
Definition encode (env : KlioMessage) : bytes :=
  encode_varint (version env)
  ++ encode_bool (ping (metadata env))
  ++ encode_bool (force (metadata env))
  ++ encode_bytes (recipients (metadata env))
  ++ encode_bytes (job_audit_log (metadata env))
  ++ encode_bytes (element (data_v2 env))
  ++ encode_bytes (payload (data_v2 env)).

(** Modelled from the spec: the Envelope Codec's [decode]
    ([klio_core.proto.klio_pb2] is missing), which "fails ... if [raw]
    cannot be parsed as the expected binary schema". *)
Definition decode (raw : bytes) : result KlioMessage :=
  ' (v, r1) <- decode_varint raw ;;
  ' (pg, r2) <- decode_bool r1 ;;
  ' (fc, r3) <- decode_bool r2 ;;
  ' (rc, r4) <- decode_bytes r3 ;;
  ' (al, r5) <- decode_bytes r4 ;;
  ' (el, r6) <- decode_bytes r5 ;;
  ' (pl, r7) <- decode_bytes r6 ;;
  match r7 with
  | [] => Ok (mkKlioMessage v (mkMetadata pg fc rc al) (mkDataV2 el pl))
  | _ :: _ => Raise (MalformedEnvelope "trailing bytes")
  end.

(** Modelled from the spec: a marker filter ([klio.transforms.helpers] is
    missing) decodes the element, reads one marker of its metadata and
    tags the element, untouched, with the branch the marker decides; an
    element that does not decode is dropped. *)
Definition marker_filter (tag_of : KlioMessage -> TaggedStates) : DoFn :=
  fun incoming_item =>
    match decode incoming_item with
    | Ok kmsg =>
        mkYielded [(TaggedStates_value (tag_of kmsg), incoming_item)] [] None
    | Raise err =>
        mkYielded [] [log_error dropping_fmt incoming_item err true] None
    end.

(** Modelled from the spec: the Ping filter ([klio.transforms.helpers] is
    missing) "splits elements into PASS_THRU (ping-only elements ...) and
    PROCESS (real elements ...)". *)
Definition KlioFilterPing (config : KlioConfig) : DoFn :=
  marker_filter (fun kmsg => if ping (metadata kmsg) then PASS_THRU else PROCESS).

(** Modelled from the spec: the force filter ([klio.transforms.helpers]
    is missing): "those marked force=true rejoin PROCESS, others rejoin
    PASS_THRU". *)
Definition KlioFilterForce (config : KlioConfig) : DoFn :=
  marker_filter (fun kmsg => if force (metadata kmsg) then PROCESS else PASS_THRU).

(** Modelled from the spec: the drop transform ([klio.transforms.helpers]
    is missing): elements whose input is not found "are dropped", so
    nothing is emitted. *)
Definition KlioDrop (config : KlioConfig) : DoFn :=
  fun incoming_item => mkYielded [] [] None.

(** Modelled from the spec: stage entry ([klio.message_handler.v2] is
    missing): "Decode raw input via Envelope Codec". *)
Definition _to_klio_message (incoming_item : bytes) (config : KlioConfig)
    : result KlioMessage :=
  decode incoming_item.

Definition lib : KlioLib :=
  mkKlioLib encode decode _to_klio_message KlioFilterPing KlioFilterForce KlioDrop.

End SpecLib.

(** ** Specification vocabulary *)

(** The existence state that the lookup of [process] assigns to a message,
    for the data location of one direction. *)
Definition lookup_state (rt : Runtime) (config : KlioConfig)
    (direction : KlioIODirection) (kmsg : KlioMessage) : result DataExistState :=
  item_path <- _get_absolute_path rt config direction (element (data_v2 kmsg)) ;;
  item_exists <- exists_ rt item_path ;;
  Ok (if negb item_exists then NOT_FOUND else FOUND).



(** ** Sample jobs, used to run the definitions on concrete inputs *)

Module Sample.

Definition b (s : string) : bytes := list_byte_of_string s.

(** An object store: the outputs of "a" and "b" exist, and so do the
    inputs of "b" and "c". *)
Definition store (path : string) : result bool :=
  Ok (String.eqb path "out/a.wav" || String.eqb path "out/b.wav"
      || String.eqb path "in/b.wav" || String.eqb path "in/c.wav").


Definition run (to_process : ToProcess) (config : KlioConfig)
    : result PCollection :=
  Ok [b "result"].

Definition runtime (lookup : string -> result bool)
    (sources : ReadTransform -> IoKwargs -> result PCollection) : Runtime :=
  mkRuntime lookup
    (fun raw => Ok (string_of_list_byte raw))
    (fun _ => true)
    (inr (None, Some run))
    sources
    (fun _ _ _ => Ok tt).

Definition msg (elem : string) (is_ping is_force : bool) : KlioMessage :=
  mkKlioMessage 2 (mkMetadata is_ping is_force [] []) (mkDataV2 (b elem) []).

Definition data_in (skip : bool) : DataConfig := mkDataConfig "in" ".wav" skip.
Definition data_out (skip : bool) : DataConfig := mkDataConfig "out" ".wav" skip.

Definition job (inputs : list EventInput.t) (outputs : list EventOutput.t)
    (dins douts : list DataConfig) : KlioConfig :=
  mkKlioConfig (mkJobConfig inputs outputs dins douts)
               (mkPipelineOptions false) 2.

Definition file_in (skip_read : bool) (path : string) : EventInput.t :=
  EventInput.mk "file" skip_read [("file_pattern", path)].

Definition file_out (path : string) : EventOutput.t :=
  EventOutput.mk "file" false [("file_path_prefix", path)].

(** Each text source delivers the elements listed under its pattern. *)
Definition sources (t : ReadTransform) (kwargs : IoKwargs) : result PCollection :=
  match kwargs with
  | [(_, "first.txt")] =>
      Ok [SpecLib.encode (msg "a" true false); SpecLib.encode (msg "c" false false)]
  | [(_, "second.txt")] =>
      Ok [SpecLib.encode (msg "b" false false)]
  | _ => Ok []
  end.

End Sample.

(** * Further code of the same files *)

(** ** klio_exec/commands/run.py: image tag and Dataflow labels *)

(** ["{}".format(value)] for an optional string. *)
Definition str_format (value : option string) : string :=
  match value with
  | Some s => s
  | None => "None"
  end.

(** [s.split(":")[0]]. *)
Fixpoint before_colon (s : string) : string :=
  match s with
  | EmptyString => EmptyString
  | String c rest =>
      if Ascii.eqb c ":" then EmptyString else String c (before_colon rest)
  end.

Definition _get_image_tag (image : string) (tag : option string) : string :=
  if negb (truthy tag) then image
  else
    let image_name := before_colon image in
    (image_name ++ ":" ++ str_format tag)%string.

Definition is_ascii_digit (c : ascii) : bool :=
  let n := nat_of_ascii c in (48 <=? n)%nat && (n <=? 57)%nat.

(** The character class [[a-zA-Z0-9_\-]] of [DATAFLOW_LABEL_REGEX]. *)
Definition is_label_char (c : ascii) : bool :=
  is_ascii_lower c || is_ascii_upper c || is_ascii_digit c
  || Ascii.eqb c "_" || Ascii.eqb c "-".

Definition flush_run (run : string) : list string :=
  match run with
  | EmptyString => []
  | _ => [run]
  end.

(** [re.findall(DATAFLOW_LABEL_REGEX, s)]: the maximal runs of label
    characters, left to right; [run] is the run being read. *)
Fixpoint findall_label (run : string) (s : string) : list string :=
  match s with
  | EmptyString => flush_run run
  | String c rest =>
      if is_label_char c then findall_label (run ++ String c "")%string rest
      else flush_run run ++ findall_label "" rest
  end.

(** [s[:n]]. *)
Fixpoint str_take (n : nat) (s : string) : string :=
  match n, s with
  | S n', String c rest => String c (str_take n' rest)
  | _, _ => EmptyString
  end.

(** [s.lower()] on ASCII text. *)
Fixpoint str_lower_ascii (s : string) : string :=
  match s with
  | EmptyString => EmptyString
  | String c rest => String (ascii_lower c) (str_lower_ascii rest)
  end.

(** [_get_clean_label_value]; [None] is the bare [return].  What the
    regular expression keeps is ASCII, so [lower()] is the ASCII one. *)
Definition _get_clean_label_value (label_value : string) : option string :=
  match findall_label "" label_value with
  | [] => None
  | matches =>
      let ret_label := String.concat "-" matches in
      let ret_label := str_take 63 ret_label in
      Some (str_lower_ascii ret_label)
  end.

(** The characters of a cleaned label value: lower case, digits, underscore
    and dash. *)
Definition is_clean_label_char (c : ascii) : bool :=
  is_ascii_lower c || is_ascii_digit c || Ascii.eqb c "_" || Ascii.eqb c "-".

Fixpoint str_forallb (p : ascii -> bool) (s : string) : bool :=
  match s with
  | EmptyString => true
  | String c rest => p c && str_forallb p rest
  end.

Definition DATAFLOW_LABEL_KEY_TO_OS_ENVIRON : list (string * string) :=
  [("build_id", "BUILD_ID");
   ("organization", "ORGANIZATION");
   ("repo", "REPOSITORY");
   ("branch", "BRANCH_NAME");
   ("commit_sha", "COMMIT_SHA");
   ("klio-cli", "KLIO_CLI_VERSION")].

Record RuntimeConf : Type := mkRuntimeConf {
  direct_runner : bool;
  update : option bool;
  blocking : bool;
  image_tag : option string
}.

Record GoogleCloudOptions : Type := mkGoogleCloudOptions {
  gcp_job_name : string;
  gcp_update : option bool;
  gcp_labels : option (list string)
}.

(** What [_set_google_cloud_options] reads from outside the job: the three
    package versions, [os.environ], and [str.lower] on arbitrary text. *)
Record LabelSources : Type := mkLabelSources {
  klio_exec_version : string;
  klio_core_version : string;
  klio_lib_version : string;
  environ : string -> option string;
  str_lower : string -> string
}.

(** [os.environ.get(key, "")]. *)
Definition environ_get (src : LabelSources) (key : string) : string :=
  match environ src key with
  | Some v => v
  | None => ""
  end.

(** One turn of the [for] loop over
    [DATAFLOW_LABEL_KEY_TO_OS_ENVIRON.items()]. *)
Definition environ_label (src : LabelSources) (labels : list string)
    (item : string * string) : list string :=
  let '(label, os_key) := item in
  let os_value := _get_clean_label_value (environ_get src os_key) in
  if truthy os_value
  then labels ++ [(label ++ "=" ++ str_format os_value)%string]
  else labels.

Definition environ_labels (src : LabelSources) (labels : list string)
    : list string :=
  fold_left (environ_label src) DATAFLOW_LABEL_KEY_TO_OS_ENVIRON labels.

Definition _set_google_cloud_options (job_name : string)
    (runtime_conf : RuntimeConf) (src : LabelSources)
    (gcp_opts : GoogleCloudOptions) : GoogleCloudOptions :=
  let new_update :=
    match update runtime_conf with
    | Some u => Some u
    | None => gcp_update gcp_opts
    end in
  let labels :=
    match gcp_labels gcp_opts with
    | Some (l :: ls) => l :: ls
    | _ => []
    end in
  let klio_exec_value := _get_clean_label_value (klio_exec_version src) in
  let klio_core_value := _get_clean_label_value (klio_core_version src) in
  let klio_value := _get_clean_label_value (klio_lib_version src) in
  let klio_labels :=
    [("klio-exec=" ++ str_format klio_exec_value)%string;
     ("klio-core=" ++ str_format klio_core_value)%string;
     ("klio=" ++ str_format klio_value)%string] in
  let labels := labels ++ klio_labels in
  let labels := environ_labels src labels in
  let labels :=
    if String.eqb (str_lower src (environ_get src "CI")) "true"
    then labels ++ ["deployed_by=CI"]
    else if truthy (environ src "USER")
         then labels ++ [("deployed_by=" ++ str_lower src (environ_get src "USER"))%string]
         else labels in
  mkGoogleCloudOptions job_name new_update (Some labels).

(** ** klio_exec/commands/run.py: pipeline options and packaging *)

(** [d.get(key)] on a dictionary whose values may be [None]. *)
Fixpoint dict_get_or_none {V : Type} (d : list (string * option V))
    (key : string) : option V :=
  match d with
  | [] => None
  | (k, v) :: rest => if String.eqb k key then v else dict_get_or_none rest key
  end.

(** [d.pop(key, None)], for its effect on the dictionary. *)
Definition dict_pop {V : Type} (d : list (string * V)) (key : string)
    : list (string * V) :=
  filter (fun kv => negb (String.eqb (fst kv) key)) d.

(** [d.get(key)] on a dictionary without [None] values. *)
Fixpoint dict_find {V : Type} (d : list (string * V)) (key : string) : option V :=
  match d with
  | [] => None
  | (k, v) :: rest => if String.eqb k key then Some v else dict_find rest key
  end.

Definition is_not_None {V : Type} (v : option V) : bool :=
  match v with
  | Some _ => true
  | None => false
  end.

(** [_parse_config_pipeline_options], on the dictionary that
    [pipeline_options.as_dict()] returns. *)
Definition _parse_config_pipeline_options {V : Type}
    (pipe_opts_dict : list (string * option V)) : list (string * V) :=
  let has_setup_file :=
    is_not_None (dict_get_or_none pipe_opts_dict "setup_file") in
  let has_reqs_file :=
    is_not_None (dict_get_or_none pipe_opts_dict "requirements_file") in
  let pipe_opts_dict :=
    if has_setup_file || has_reqs_file
    then dict_pop pipe_opts_dict "worker_harness_container_image"
    else pipe_opts_dict in
  flat_map
    (fun kv => match snd kv with
               | Some v => [(fst kv, v)]
               | None => []
               end)
    pipe_opts_dict.

Record PackagingOptions : Type := mkPackagingOptions {
  experiments : list string;
  setup_file : option string;
  requirements_file : option string
}.

Definition _verify_packaging (pipeline_opts : PackagingOptions) : result unit :=
  let fnapi_enabled :=
    existsb (String.eqb "beam_fn_api") (experiments pipeline_opts) in
  let has_setup_file := is_not_None (setup_file pipeline_opts) in
  let has_reqs_file := is_not_None (requirements_file pipeline_opts) in
  if fnapi_enabled && (has_setup_file || has_reqs_file)
  then Raise (SystemExit 1)
  else Ok tt.

(** ** klio_exec/commands/run.py: [KlioPipeline.run] *)

(** [sub in s] for strings. *)
Fixpoint str_contains (sub s : string) : bool :=
  String.prefix sub s
  || match s with
     | EmptyString => false
     | String _ rest => str_contains sub rest
     end.

(** How [pipeline.run()] ends: it returns, raises a [ValueError] with the
    given text, or raises an exception of another class. *)
Inductive RunOutcome : Type :=
| RunReturned
| RunValueError (msg : string)
| RunRaised (e : exn).

(** What [run] calls outside the modelled code, by attempt number:
    [_get_pipeline_options] followed by [beam.Pipeline(options=options)],
    [pipeline.run()] and [result.wait_until_finish()]. *)
Record Launcher : Type := mkLauncher {
  make_pipeline : nat -> RuntimeConf -> result Pipeline;
  pipeline_run : nat -> RunOutcome;
  wait_until_finish : nat -> result unit
}.

(** [KlioPipeline.run]; [fuel] bounds the depth of [return self.run()] and
    [attempt] counts the calls. *)
Fixpoint run (fuel : nat) (launcher : Launcher) (rt : Runtime) (lib : KlioLib)
    (config : KlioConfig) (pipeline_opts : PackagingOptions)
    (runtime_conf : RuntimeConf) (attempt : nat) : option (result unit) :=
  match fuel with
  | O => None
  | S fuel' =>
      match _verify_packaging pipeline_opts with
      | Raise e => Some (Raise e)
      | Ok _ =>
      match make_pipeline launcher attempt runtime_conf with
      | Raise e => Some (Raise e)
      | Ok pipeline =>
      match _setup_pipeline rt lib config pipeline with
      | Raise e => Some (Raise e)
      | Ok _ =>
      match pipeline_run launcher attempt with
      | RunValueError msg =>
          if match update runtime_conf with Some true => true | _ => false end
             && str_contains "No running job found with name" msg
          then
            run fuel' launcher rt lib config pipeline_opts
              (mkRuntimeConf (direct_runner runtime_conf) None
                 (blocking runtime_conf) (image_tag runtime_conf))
              (S attempt)
          else Some (Raise (SystemExit 1))
      | RunRaised e => Some (Raise e)
      | RunReturned =>
          if direct_runner runtime_conf || blocking runtime_conf
          then Some (wait_until_finish launcher attempt)
          else Some (Ok tt)
      end end end end
  end.

(** ** klio/transforms/io.py: BigQuery and avro *)

(** A value of a BigQuery row: [bytes(data, "utf-8")] accepts a [str],
    given here by its UTF-8 text, and nothing else. *)
Inductive BqValue : Type :=
| BqStr (s : string)
| BqOther (repr : string).

Definition Row := list (string * BqValue).

(** What ends the iteration of the reader: the [KeyError] of
    [row[column]], the [TypeError] of [bytes(data, "utf-8")] on a value
    that is not a [str], or whatever [json.dumps] raised. *)
Inductive ReaderError : Type :=
| ReaderKeyError (key : string)
| ReaderTypeError
| ReaderJsonError (e : exn).

(** The dictionary that the loop over [row.items()] fills: the items of
    the row whose key is one of the columns, in the order of the row. *)
Definition select_columns (columns : list string) (row : Row) : Row :=
  filter (fun kv => existsb (String.eqb (fst kv)) columns) row.

(** [bytes(json.dumps(data), "utf-8")]; [json_dumps] is [json.dumps] on a
    dictionary, which raises on a value it cannot serialize. *)
Definition dumps_bytes (json_dumps : Row -> result string) (data : Row)
    : ReaderError + bytes :=
  match json_dumps data with
  | Ok text => inr (list_byte_of_string text)
  | Raise e => inl (ReaderJsonError e)
  end.

(** The element of one row in [_KlioBigQueryReader.__iter__], before it is
    put into the message.  A row is a dictionary: its keys are distinct. *)
Definition bq_row_element (json_dumps : Row -> result string)
    (klio_message_columns : option (list string)) (row : Row)
    : ReaderError + bytes :=
  match klio_message_columns with
  | Some (column :: more) =>
      match more with
      | [] =>
          match dict_find row column with
          | None => inl (ReaderKeyError column)
          | Some (BqStr s) => inr (list_byte_of_string s)
          | Some (BqOther _) => inl ReaderTypeError
          end
      | _ => dumps_bytes json_dumps (select_columns (column :: more) row)
      end
  | _ => dumps_bytes json_dumps row
  end.

(** [__generate_klio_message] followed by the assignment of the element;
    [v2] is [klio_pb2.Version.V2]. *)
Definition klio_message_v2 (v2 : N) (elem : bytes) : KlioMessage :=
  set_element (mkKlioMessage v2 (metadata new_KlioMessage)
                 (data_v2 new_KlioMessage)) elem.

(** [_KlioBigQueryReader.__iter__]: the messages yielded, and the error
    that ended the iteration, if one did. *)
Fixpoint bq_iter (lib : KlioLib) (v2 : N)
    (json_dumps : Row -> result string)
    (klio_message_columns : option (list string)) (rows : list Row)
    : list bytes * option ReaderError :=
  match rows with
  | [] => ([], None)
  | row :: rest =>
      match bq_row_element json_dumps klio_message_columns row with
      | inl err => ([], Some err)
      | inr elem =>
          let '(messages, err) :=
            bq_iter lib v2 json_dumps klio_message_columns rest in
          (SerializeToString lib (klio_message_v2 v2 elem) :: messages, err)
      end
  end.

(** [_KlioFastAvroSource.read_records], one record. *)
Definition avro_read_record {Record_ : Type} (lib : KlioLib) (v2 : N)
    (json_dumps : Record_ -> string) (record : Record_) : bytes :=
  SerializeToString lib
    (klio_message_v2 v2 (list_byte_of_string (json_dumps record))).

(** [KlioWriteToBigQuery.__unwrap]; [json_loads] is [json.loads]. *)
Definition unwrap {J : Type} (lib : KlioLib) (json_loads : bytes -> result J)
    (encoded_element : bytes) : result J :=
  message <- ParseFromString lib encoded_element ;;
  json_loads (payload (data_v2 message)).

(** ** klio_cli/utils/docker_utils.py *)

Definition CRLF : string := String "013" (String "010" "").

(** [s.split("\r\n")]. *)
Fixpoint split_crlf (s : string) : list string :=
  match s with
  | EmptyString => [EmptyString]
  | String c rest =>
      let otherwise :=
        match split_crlf rest with
        | piece :: pieces => String c piece :: pieces
        | [] => [String c EmptyString]
        end in
      match rest with
      | String c' rest' =>
          if Ascii.eqb c "013" && Ascii.eqb c' "010"
          then EmptyString :: split_crlf rest'
          else otherwise
      | EmptyString => otherwise
      end
  end.

(** The log object that only wraps a newline: an opening brace, the quoted
    key, a colon, a quoted backslash-n, a closing brace. *)
Definition newline_object : string :=
  let q := String "034" "" in
  ("{" ++ q ++ "stream" ++ q ++ ":" ++ q ++ "\n" ++ q ++ "}")%string.

Definition is_log_object (log_obj : string) : bool :=
  negb (String.eqb log_obj newline_object) && negb (String.eqb log_obj "").

(** The inner loop of [clean_logs] for one decoded line. *)
Definition clean_line (line : string) : list string :=
  filter is_log_object (split_crlf line).

(** A stream of log objects as the Docker daemon frames it: every object
    followed by a carriage return and a line feed. *)
Fixpoint crlf_terminated (objects : list string) : string :=
  match objects with
  | [] => EmptyString
  | object :: rest => (object ++ CRLF ++ crlf_terminated rest)%string
  end.

Definition has_no_cr (s : string) : bool :=
  str_forallb (fun c => negb (Ascii.eqb c "013")) s.

Inductive LogLine : Type :=
| BytesLine (raw : bytes)
| StrLine (s : string).

(** [clean_logs(log_generator)]: the objects yielded and the exception that
    ended the generator, if a line failed to decode. *)
Fixpoint clean_logs (decode_utf8 : bytes -> result string)
    (log_generator : list LogLine) : list string * option exn :=
  match log_generator with
  | [] => ([], None)
  | line :: rest =>
      match (match line with
             | BytesLine raw => decode_utf8 raw
             | StrLine s => Ok s
             end) with
      | Raise e => ([], Some e)
      | Ok s =>
          let '(objects, err) := clean_logs decode_utf8 rest in
          (clean_line s ++ objects, err)
      end
  end.

Inductive PingOutcome : Type :=
| PingReturned
| PingAPIError
| PingConnectionError
| PingRaised (e : exn).

Inductive ImagesGetOutcome : Type :=
| ImageReturned
| ImageNotFound
| ImagesAPIError (detail : string)
| ImagesRaised (e : exn).

(** The Docker daemon and the file system as [get_docker_image_client] meets
    them; [build_image] stands for the call of [build_docker_image]. *)
Record DockerHost : Type := mkDockerHost {
  from_env : result unit;
  docker_ping : PingOutcome;
  os_path_exists : string -> bool;
  images_get : string -> ImagesGetOutcome;
  build_image : string -> string -> string -> result unit
}.

(** What a run of the docker helpers does that can be observed;
    [LoggedEmojized text] is [logging.error(emoji.emojize(text))]. *)
Inductive DockerEvent : Type :=
| Pinged
| LookedForDockerfile (path : string)
| LookedForImage (name : string)
| Built (job_dir image_name image_tag : string)
| LoggedEmojized (text : string)
| LoggedError (msg : string)
| LoggedInfo (msg : string).

Definition check_docker_connection (host : DockerHost)
    : list DockerEvent * result unit :=
  match docker_ping host with
  | PingReturned => ([Pinged], Ok tt)
  | PingAPIError | PingConnectionError =>
      ([Pinged; LoggedEmojized "Could not reach Docker! :whale:";
        LoggedError "Is it installed and running?"],
       Raise (SystemExit 1))
  | PingRaised e => ([Pinged], Raise e)
  end.

Definition underline : string := String "027" "[4m".

Definition check_dockerfile_present (host : DockerHost) (job_dir : string)
    : list DockerEvent * result unit :=
  let dockerfile_path := (job_dir ++ "/Dockerfile")%string in
  if negb (os_path_exists host dockerfile_path) then
    ([LookedForDockerfile dockerfile_path;
      LoggedError "Klio can't run job without a Dockerfile.";
      LoggedError
        ("Please supply " ++ underline ++ dockerfile_path ++ underline)%string],
     Raise (SystemExit 1))
  else ([LookedForDockerfile dockerfile_path], Ok tt).

Definition docker_image_exists (host : DockerHost) (name : string)
    : list DockerEvent * result bool :=
  match images_get host name with
  | ImageReturned => ([LookedForImage name], Ok true)
  | ImageNotFound => ([LookedForImage name], Ok false)
  | ImagesAPIError detail =>
      ([LookedForImage name;
        LoggedError
          ("Docker ran into the error checking if image " ++ name
           ++ "has already been built:" ++ String "010" detail)%string],
       Raise (SystemExit 1))
  | ImagesRaised e => ([LookedForImage name], Raise e)
  end.

(** Sequencing of two steps that leave events behind. *)
Definition and_then {A B : Type} (step : list DockerEvent * result A)
    (next : A -> list DockerEvent * result B) : list DockerEvent * result B :=
  match step with
  | (events, Ok a) => let '(events', r) := next a in (events ++ events', r)
  | (events, Raise e) => (events, Raise e)
  end.

Definition get_docker_image_client (host : DockerHost)
    (job_dir image_tag image_name : string) (force_build : bool)
    : list DockerEvent * result string :=
  let image := (image_name ++ ":" ++ image_tag)%string in
  and_then ([], from_env host) (fun _ =>
  and_then (check_docker_connection host) (fun _ =>
  and_then (check_dockerfile_present host job_dir) (fun _ =>
  and_then (docker_image_exists host image) (fun exists_already =>
    if negb exists_already || force_build then
      and_then
        ([LoggedInfo ("Building worker image: " ++ image)%string;
          Built job_dir image_name image_tag],
         build_image host job_dir image_name image_tag)
        (fun _ => ([], Ok image))
    else ([LoggedInfo ("Found worker image: " ++ image)%string], Ok image))))).
(** * Properties *)

(** ** The envelope codec *)

Module CodecFacts.
Import SpecLib.
Local Open Scope N_scope.

Lemma to_N_byte_of_N (n : N) : n < 256 -> Byte.to_N (byte_of_N n) = n.
Proof.
  intros Hn. unfold byte_of_N.
  destruct (Byte.of_N n) as [b|] eqn:E.
  - apply Byte.to_of_N. exact E.
  - apply Byte.of_N_None_iff in E. lia.
Qed.

Lemma encode_varint_unfold (n : N) :
  encode_varint n =
  if n <? 128 then [byte_of_N n]
  else byte_of_N (128 + n mod 128) :: encode_varint (n / 128).
Proof.
  funelim (encode_varint n).
  - rewrite e. reflexivity.
  - rewrite Hge. reflexivity.
Qed.

Lemma decode_encode_varint (n : N) (rest : bytes) :
  decode_varint (encode_varint n ++ rest) = Ok (n, rest).
Proof.
  induction n as [n IH] using (well_founded_induction N.lt_wf_0).
  rewrite encode_varint_unfold.
  destruct (n <? 128) eqn:E.
  - apply N.ltb_lt in E. cbn [app decode_varint].
    rewrite to_N_byte_of_N by lia.
    apply N.ltb_lt in E. rewrite E. reflexivity.
  - apply N.ltb_ge in E. cbn [app decode_varint].
    assert (Hm : n mod 128 < 128) by (apply N.mod_lt; discriminate).
    assert (Hd : n / 128 < n) by (apply N.div_lt; lia).
    assert (Hn : n = 128 * (n / 128) + n mod 128)
      by (apply N.div_mod; discriminate).
    revert Hm Hn. generalize (n mod 128). intros low Hm Hn.
    rewrite to_N_byte_of_N by lia.
    destruct (128 + low <? 128) eqn:E2; [apply N.ltb_lt in E2; lia |].
    rewrite IH by exact Hd.
    cbn [bind]. f_equal. f_equal. lia.
Qed.

Lemma decode_encode_bool (v : bool) (rest : bytes) :
  decode_bool (encode_bool v ++ rest) = Ok (v, rest).
Proof. destruct v; reflexivity. Qed.

Lemma decode_encode_bytes (field rest : bytes) :
  decode_bytes (encode_bytes field ++ rest) = Ok (field, rest).
Proof.
  unfold decode_bytes, encode_bytes.
  rewrite <- app_assoc, decode_encode_varint. cbn [bind].
  rewrite length_app, Nat2N.inj_add.
  destruct (_ <? _) eqn:E; [apply N.ltb_lt in E; lia |].
  rewrite Nat2N.id, firstn_app, skipn_app, Nat.sub_diag.
  rewrite firstn_all, skipn_all, firstn_O, skipn_O, app_nil_r.
  reflexivity.
Qed.

Lemma decode_encode (env : KlioMessage) : decode (encode env) = Ok env.
Proof.
  destruct env as [v [pg fc rc al] [el pl]].
  unfold decode, encode. cbn [version metadata data_v2 ping force recipients
                              job_audit_log element payload].
  rewrite decode_encode_varint. cbn [bind].
  rewrite decode_encode_bool. cbn [bind].
  rewrite decode_encode_bool. cbn [bind].
  rewrite decode_encode_bytes. cbn [bind].
  rewrite decode_encode_bytes. cbn [bind].
  rewrite decode_encode_bytes. cbn [bind].
  rewrite <- (app_nil_r (encode_bytes pl)), decode_encode_bytes. cbn [bind].
  reflexivity.
Qed.

Lemma encode_injective (m m' : KlioMessage) : encode m = encode m' -> m = m'.
Proof.
  intros H. apply (f_equal decode) in H.
  rewrite !decode_encode in H. congruence.
Qed.

End CodecFacts.

(** C7. Envelope round-trip: decoding the encoded form of any envelope gives
    the envelope back, and a record that the text source serialized into a
    message is recovered unchanged when the text sink parses that message. *)
Theorem envelope_round_trip :
  (forall e : KlioMessage, SpecLib.decode (SpecLib.encode e) = Ok e)
  /\ (forall record : string,
        write_record SpecLib.lib (read_record SpecLib.lib record)
        = Ok (list_byte_of_string record))
  /\ (forall records : list string,
        map (write_record SpecLib.lib) (read_records SpecLib.lib records)
        = map (fun record => Ok (list_byte_of_string record)) records).
Proof.
  assert (Hone : forall record : string,
             write_record SpecLib.lib (read_record SpecLib.lib record)
             = Ok (list_byte_of_string record)).
  { intros record. unfold write_record, read_record.
    cbn [ParseFromString SerializeToString SpecLib.lib].
    rewrite CodecFacts.decode_encode. reflexivity. }
  split; [exact CodecFacts.decode_encode | split; [exact Hone |]].
  intros records. unfold read_records. rewrite map_map.
  apply map_ext. exact Hone.
Qed.

(** ** [KlioReadFromAvro._get_file_pattern] *)

Lemma truthy_Some (s : string) : truthy (Some s) = true <-> s <> "".
Proof.
  destruct s; cbn; split; intros H; congruence.
Qed.

(** C10, as the code has it.  The constructor's pattern is missing exactly
    when both [file_pattern] and [location] are falsy ([None] or empty); two
    non-empty values are path-joined, location first; a non-empty
    [file_pattern] beside a falsy [location] is used as it is, and so is a
    non-empty [location] beside a [file_pattern] of [None]. *)
Theorem get_file_pattern_cases
    (file_pattern location : option string) (show_unpublished : bool) :
  ((exists msg, _get_file_pattern file_pattern location show_unpublished
                = Raise (KlioMissingConfiguration msg))
   <-> truthy file_pattern = false /\ truthy location = false)
  /\ ((exists e, _get_file_pattern file_pattern location show_unpublished
                 = Raise e)
      <-> truthy file_pattern = false /\ truthy location = false)
  /\ (forall f l, file_pattern = Some f -> location = Some l ->
        f <> "" -> l <> "" ->
        _get_file_pattern file_pattern location show_unpublished
        = Ok (Some (os_path_join l f)))
  /\ (forall f, file_pattern = Some f -> f <> "" -> truthy location = false ->
        _get_file_pattern file_pattern location show_unpublished = Ok (Some f))
  /\ (forall l, file_pattern = None -> location = Some l -> l <> "" ->
        _get_file_pattern file_pattern location show_unpublished = Ok (Some l)).
Proof.
  assert (Hraise : forall e,
             _get_file_pattern file_pattern location show_unpublished = Raise e ->
             truthy file_pattern = false /\ truthy location = false).
  { unfold _get_file_pattern. intros e H.
    destruct (truthy file_pattern) eqn:Ef, (truthy location) eqn:El;
      cbn in H; try (split; reflexivity);
      destruct file_pattern, location; discriminate. }
  assert (Hfalsy : truthy file_pattern = false /\ truthy location = false ->
             _get_file_pattern file_pattern location show_unpublished
             = Raise (KlioMissingConfiguration missing_avro_keys_msg)).
  { unfold _get_file_pattern. intros [Ef El]. rewrite Ef, El. reflexivity. }
  split; [| split; [| split; [| split]]].
  - split.
    + intros [msg H]. exact (Hraise _ H).
    + intros H. eexists. exact (Hfalsy H).
  - split.
    + intros [e H]. exact (Hraise _ H).
    + intros H. eexists. exact (Hfalsy H).
  - unfold _get_file_pattern. intros f l -> -> Hf Hl.
    apply truthy_Some in Hf, Hl. rewrite Hf, Hl. reflexivity.
  - unfold _get_file_pattern. intros f -> Hf Hl.
    apply truthy_Some in Hf. rewrite Hf, Hl. reflexivity.
  - unfold _get_file_pattern. intros l -> -> Hl.
    apply truthy_Some in Hl. rewrite Hl. reflexivity.
Qed.

(** C10, as stated, fails: with an empty [file_pattern] and no [location]
    the constructor raises although [file_pattern] is not [None]. *)
Lemma get_file_pattern_raises_on_empty :
  ~ ((exists e, _get_file_pattern (Some "") None false = Raise e)
     <-> (Some "" = (None : option string) /\ (None : option string) = None)).
Proof.
  intros [Hraise _].
  destruct Hraise as [H _]; [eexists; reflexivity | discriminate H].
Qed.

(** ** The wrapped per-element entry point *)

Section WrapProcess.

Variables (lib : KlioLib) (config : KlioConfig).
Variable meth : KlioMessage -> Yielded TaggedOutput.

Lemma wrap_process_decode_failure (incoming_item : bytes) (err : exn) :
  _to_klio_message lib incoming_item config = Raise err ->
  is_Exception err = true ->
  _wrap_process lib config meth incoming_item
  = mkYielded [] [log_error dropping_fmt incoming_item err true] None.
Proof.
  intros Hdec Hexc. unfold _wrap_process. rewrite Hdec, Hexc. reflexivity.
Qed.


Lemma wrap_process_meth_success (incoming_item : bytes) (kmsg : KlioMessage) :
  _to_klio_message lib incoming_item config = Ok kmsg ->
  raised (meth kmsg) = None ->
  _wrap_process lib config meth incoming_item = meth kmsg.
Proof.
  intros Hdec Hraised. unfold _wrap_process. rewrite Hdec, Hraised.
  reflexivity.
Qed.

(** Whatever derives from [Exception] stays inside the wrapper. *)
Lemma wrap_process_contains (incoming_item : bytes) (err : exn) :
  raised (_wrap_process lib config meth incoming_item) = Some err ->
  is_Exception err = false.
Proof.
  unfold _wrap_process.
  destruct (_to_klio_message lib incoming_item config) as [kmsg | e].
  - destruct (raised (meth kmsg)) as [e |] eqn:Hr.
    + destruct (is_Exception e) eqn:He; cbn; intros H;
        [discriminate | congruence].
    + rewrite Hr. discriminate.
  - destruct (is_Exception e) eqn:He; cbn; intros H;
      [discriminate | congruence].
Qed.

End WrapProcess.

Lemma ParDo_cons (fn : DoFn) (x : bytes) (pcoll : PCollection) :
  ParDo fn (x :: pcoll) = yielded (fn x) ++ ParDo fn pcoll.
Proof. reflexivity. Qed.

Lemma ParDo_app (fn : DoFn) (pcoll pcoll' : PCollection) :
  ParDo fn (pcoll ++ pcoll') = ParDo fn pcoll ++ ParDo fn pcoll'.
Proof. unfold ParDo. apply flat_map_app. Qed.

(** C3. Failure containment at the element boundary: when the conversion of
    a raw element to a KlioMessage fails, the wrapped entry point yields
    nothing for it, logs one error record carrying the raw element and the
    original error, lets no exception escape, and the stage's output is
    what the other elements alone produce. *)
Theorem decode_failure_is_contained
    (lib : KlioLib) (config : KlioConfig)
    (meth : KlioMessage -> Yielded TaggedOutput)
    (incoming_item : bytes) (err : exn) :
  _to_klio_message lib incoming_item config = Raise err ->
  is_Exception err = true ->
  yielded (_wrap_process lib config meth incoming_item) = []
  /\ logged (_wrap_process lib config meth incoming_item)
     = [log_error dropping_fmt incoming_item err true]
  /\ raised (_wrap_process lib config meth incoming_item) = None
  /\ (forall before after : PCollection,
        ParDo (_wrap_process lib config meth) (before ++ incoming_item :: after)
        = ParDo (_wrap_process lib config meth) (before ++ after)).
Proof.
  intros Hdec Hexc.
  pose proof (wrap_process_decode_failure lib config meth _ _ Hdec Hexc) as Hw.
  repeat split; try (rewrite Hw; reflexivity).
  intros before after.
  rewrite !ParDo_app, ParDo_cons, Hw. reflexivity.
Qed.

(** On malformed bytes the input existence check of a sample job drops the
    element and goes on with the next one. *)
Lemma decode_failure_is_contained_witness :
  let rt := Sample.runtime Sample.store Sample.sources in
  let cfg := Sample.job [] [] [Sample.data_in false] [Sample.data_out false] in
  let good := SpecLib.encode (Sample.msg "b" false false) in
  ParDo (_wrap_process SpecLib.lib cfg (process rt SpecLib.lib cfg INPUT))
        ([] ++ Sample.b "junk" :: [good])
  = [("found", good)].
Proof.
  intros rt cfg good.
  destruct (decode_failure_is_contained SpecLib.lib cfg
              (process rt SpecLib.lib cfg INPUT) (Sample.b "junk")
              (MalformedEnvelope "bad marker") eq_refl eq_refl)
    as [_ [_ [_ Hrest]]].
  rewrite Hrest. reflexivity.
Defined.




(** ** The filter chain of [_setup_data_io_filters] *)

Lemma Flatten_pair (x y : PCollection) : Flatten [x; y] = Ok (x ++ y).
Proof. unfold Flatten. cbn [List.concat]. rewrite app_nil_r. reflexivity. Qed.


Lemma setup_filters_single (rt : Runtime) (lib : KlioLib) (config : KlioConfig)
    (in_pcol : PCollection) (label_prefix : option string)
    (data_input_config data_output_config : DataConfig) :
  data_inputs (job_config config) = [data_input_config] ->
  data_outputs (job_config config) = [data_output_config] ->
  _setup_data_io_filters rt lib config in_pcol label_prefix
  = (' (to_pass_thru, to_filter_input) <-
       output_filter_stage rt lib config data_output_config
         (ParDo (KlioFilterPing lib config) in_pcol) ;;
     Ok (input_filter_stage rt lib config data_input_config to_filter_input,
         to_pass_thru)).
Proof.
  intros Hin Hout. unfold _setup_data_io_filters. rewrite Hin, Hout.
  reflexivity.
Qed.

(** C8. Skip-flag wiring.  With [skip_klio_existence_check] set on the data
    input, the stream to process is the stream that leaves the output
    filters, with no input-existence filter in between; with it set on the
    data output, the ping split feeds the input-existence filter directly
    and the pass-thru stream is the ping filter's alone. *)
Theorem skip_flags_wiring
    (rt : Runtime) (lib : KlioLib) (config : KlioConfig)
    (in_pcol : PCollection) (label_prefix : option string)
    (data_input_config data_output_config : DataConfig) :
  data_inputs (job_config config) = [data_input_config] ->
  data_outputs (job_config config) = [data_output_config] ->
  let pings := ParDo (KlioFilterPing lib config) in_pcol in
  let output_exists :=
    ParDo (KlioGcsCheckOutputExists rt lib config) (with_tag "process" pings) in
  let output_force :=
    ParDo (KlioFilterForce lib config) (with_tag "found" output_exists) in
  (skip_klio_existence_check data_input_config = true ->
   skip_klio_existence_check data_output_config = false ->
   _setup_data_io_filters rt lib config in_pcol label_prefix
   = Ok (with_tag "not_found" output_exists ++ with_tag "process" output_force,
         with_tag "pass_thru" pings ++ with_tag "pass_thru" output_force))
  /\ (skip_klio_existence_check data_input_config = true ->
      skip_klio_existence_check data_output_config = true ->
      _setup_data_io_filters rt lib config in_pcol label_prefix
      = Ok (with_tag "process" pings, with_tag "pass_thru" pings))
  /\ (skip_klio_existence_check data_input_config = false ->
      skip_klio_existence_check data_output_config = true ->
      _setup_data_io_filters rt lib config in_pcol label_prefix
      = Ok (with_tag "found"
              (ParDo (KlioGcsCheckInputExists rt lib config)
                     (with_tag "process" pings)),
            with_tag "pass_thru" pings)).
Proof.
  intros Hin Hout pings output_exists output_force.
  rewrite (setup_filters_single rt lib config in_pcol label_prefix _ _ Hin Hout).
  unfold output_filter_stage, input_filter_stage.
  repeat split; intros Hi Ho; rewrite Hi, Ho; cbn [negb];
    rewrite ?Flatten_pair; reflexivity.
Qed.

(** With both checks skipped, a sample element whose input does not exist
    still reaches the stream to process. *)
Lemma skip_flags_wiring_witness :
  let rt := Sample.runtime Sample.store Sample.sources in
  let cfg := Sample.job [] [] [Sample.data_in true] [Sample.data_out true] in
  let a := SpecLib.encode (Sample.msg "a" false false) in
  let p := SpecLib.encode (Sample.msg "p" true false) in
  _setup_data_io_filters rt SpecLib.lib cfg [a; p] None = Ok ([a], [p]).
Proof.
  intros rt cfg a p.
  destruct (skip_flags_wiring rt SpecLib.lib cfg [a; p] None
              (Sample.data_in true) (Sample.data_out true) eq_refl eq_refl)
    as [_ [Hboth _]].
  rewrite (Hboth eq_refl eq_refl). reflexivity.
Defined.

(** ** Pipeline assembly *)

Lemma generate_pcoll_skip_read (rt : Runtime) (lib : KlioLib)
    (config : KlioConfig) (pipeline : Pipeline) (input_config : EventInput.t)
    (label_prefix : option string) :
  EventInput.skip_klio_read input_config = true ->
  _generate_pcoll rt lib config pipeline input_config label_prefix
  = Ok (ThePipeline pipeline, None).
Proof. intros H. unfold _generate_pcoll. rewrite H. reflexivity. Qed.

(** C9. A single event input with [skip_klio_read]: [_generate_pcoll]
    returns the pipeline object itself and no pass-thru branch, the run
    callable is called with that pipeline, and the output transform, when
    there is one, receives the callable's output as it is. *)
Theorem skip_klio_read_unfiltered
    (rt : Runtime) (lib : KlioLib) (config : KlioConfig) (pipeline : Pipeline)
    (input_config : EventInput.t) (run_callable : RunCallable)
    (out_pcol : PCollection) :
  event_inputs (job_config config) = [input_config] ->
  EventInput.skip_klio_read input_config = true ->
  _get_run_callable rt = Ok run_callable ->
  run_callable (Single (ThePipeline pipeline)) config = Ok out_pcol ->
  _generate_pcoll rt lib config pipeline input_config None
  = Ok (ThePipeline pipeline, None)
  /\ match event_outputs (job_config config) with
     | [] =>
         _setup_pipeline rt lib config pipeline
         = Ok (mkAssembled (Single (ThePipeline pipeline)) out_pcol None)
     | output_config :: _ =>
         if EventOutput.skip_klio_write output_config then
           _setup_pipeline rt lib config pipeline
           = Ok (mkAssembled (Single (ThePipeline pipeline)) out_pcol None)
         else
           forall transform_cls_out,
             dict_get (mapper_output (_io_mapper config))
                      (EventOutput.name output_config) = Ok transform_cls_out ->
             apply_write rt transform_cls_out
               (EventOutput.to_io_kwargs output_config) out_pcol = Ok tt ->
             _setup_pipeline rt lib config pipeline
             = Ok (mkAssembled (Single (ThePipeline pipeline)) out_pcol
                     (Some (transform_cls_out, out_pcol)))
     end.
Proof.
  intros Hinputs Hskip Hcallable Hrun.
  pose proof (generate_pcoll_skip_read rt lib config pipeline input_config
                None Hskip) as Hgen.
  split; [exact Hgen |].
  unfold _setup_pipeline, _has_event_inputs, _has_multi_event_inputs,
    _has_event_outputs.
  rewrite Hcallable, Hinputs. cbn [bind List.length Nat.ltb Nat.leb negb index0].
  rewrite Hgen. cbn [bind]. rewrite Hrun. cbn [bind].
  destruct (event_outputs (job_config config)) as [| output_config rest].
  - reflexivity.
  - cbn [List.length Nat.ltb Nat.leb index0 bind].
    destruct (EventOutput.skip_klio_write output_config).
    + reflexivity.
    + intros transform_cls_out Hcls Hwrite. cbn [negb].
      rewrite Hcls. cbn [bind]. rewrite Hwrite. reflexivity.
Qed.

Lemma skip_klio_read_unfiltered_witness :
  let rt := Sample.runtime Sample.store Sample.sources in
  let cfg := Sample.job [Sample.file_in true "first.txt"] [Sample.file_out "out"]
               [Sample.data_in false] [Sample.data_out false] in
  _setup_pipeline rt SpecLib.lib cfg BeamPipeline
  = Ok (mkAssembled (Single (ThePipeline BeamPipeline)) [Sample.b "result"]
          (Some (KlioWriteToText, [Sample.b "result"]))).
Proof.
  intros rt cfg.
  destruct (skip_klio_read_unfiltered rt SpecLib.lib cfg BeamPipeline
              (Sample.file_in true "first.txt") Sample.run [Sample.b "result"]
              eq_refl eq_refl eq_refl eq_refl) as [_ Hsetup].
  exact (Hsetup KlioWriteToText eq_refl eq_refl).
Defined.

(** *** More than one data input or output *)

Section TooManyDataConfigs.

Variables (rt : Runtime) (lib : KlioLib) (config : KlioConfig).
Variable pipeline : Pipeline.

Hypothesis too_many :
(1 < List.length (data_inputs (job_config config))
 \/ 1 < List.length (data_outputs (job_config config)))%nat.





End TooManyDataConfigs.




(** *** Merging the pass-thru branches into the output *)

Lemma append_last_inj (s s' : string) (c c' : ascii) :
  (s ++ String c "" = s' ++ String c' "")%string -> c = c'.
Proof.
  revert s'. induction s as [| a s IH]; intros [| a' s'] H; cbn in H.
  - congruence.
  - injection H as _ H. destruct s'; discriminate H.
  - injection H as _ H. destruct s; discriminate H.
  - injection H as _ H. exact (IH _ H).
Qed.


Section Merge.

Variables (rt : Runtime) (lib : KlioLib) (config : KlioConfig).
Variable pipeline : Pipeline.
Variable run_callable : RunCallable.
Variables (output_config : EventOutput.t) (more_outputs : list EventOutput.t).
Variable transform_cls_out : WriteTransform.

Hypothesis callable_loaded : _get_run_callable rt = Ok run_callable.
Hypothesis outputs_declared :
event_outputs (job_config config) = output_config :: more_outputs.
Hypothesis output_written : EventOutput.skip_klio_write output_config = false.
Hypothesis output_known :
dict_get (mapper_output (_io_mapper config)) (EventOutput.name output_config)
= Ok transform_cls_out.







End Merge.




(** ** Routing of single elements through the filter chain *)

Lemma in_with_tag (tag : string) (outputs : list TaggedOutput) (y : bytes) :
  In y (with_tag tag outputs) <-> In (tag, y) outputs.
Proof.
  unfold with_tag. rewrite in_map_iff. split.
  - intros [[t v] [Hv Hin]]. cbn in Hv. subst v.
    apply filter_In in Hin. destruct Hin as [Hin Ht].
    cbn in Ht. apply String.eqb_eq in Ht. subst t. exact Hin.
  - intros Hin. exists (tag, y). split; [reflexivity |].
    apply filter_In. split; [exact Hin |]. cbn. apply String.eqb_refl.
Qed.

Lemma in_ParDo (fn : DoFn) (pcoll : PCollection) (o : TaggedOutput) :
  In o (ParDo fn pcoll) <-> exists x, In x pcoll /\ In o (yielded (fn x)).
Proof. unfold ParDo. apply in_flat_map. Qed.

Lemma in_tagged_ParDo (fn : DoFn) (pcoll : PCollection) (tag : string)
    (y : bytes) :
  In y (with_tag tag (ParDo fn pcoll))
  <-> exists x, In x pcoll /\ In (tag, y) (yielded (fn x)).
Proof. rewrite in_with_tag. apply in_ParDo. Qed.

Lemma marker_filter_yields (tag_of : KlioMessage -> TaggedStates)
    (incoming_item : bytes) (tag : string) (y : bytes) :
  In (tag, y) (yielded (SpecLib.marker_filter tag_of incoming_item))
  <-> exists kmsg, SpecLib.decode incoming_item = Ok kmsg
                   /\ tag = TaggedStates_value (tag_of kmsg)
                   /\ y = incoming_item.
Proof.
  unfold SpecLib.marker_filter.
  destruct (SpecLib.decode incoming_item) as [kmsg | err]; cbn [yielded In].
  - split.
    + intros [H | []]. injection H as Ht Hy. exists kmsg. subst tag y. auto.
    + intros [k [Hk [Ht Hy]]]. injection Hk as ->. left. congruence.
  - split; [intros [] | intros [k [Hk _]]; discriminate Hk].
Qed.

Lemma check_exists_yields (rt : Runtime) (config : KlioConfig)
    (direction : KlioIODirection) (incoming_item : bytes) (tag : string)
    (y : bytes) :
  In (tag, y)
     (yielded (check_exists_entry rt SpecLib.lib config direction incoming_item))
  <-> exists kmsg state,
        SpecLib.decode incoming_item = Ok kmsg
        /\ lookup_state rt config direction kmsg = Ok state
        /\ tag = DataExistState_value state
        /\ y = SpecLib.encode kmsg.
Proof.
  unfold check_exists_entry, _wrap_process, process, lookup_state.
  cbn [_to_klio_message SerializeToString SpecLib.lib].
  unfold SpecLib._to_klio_message.
  destruct (SpecLib.decode incoming_item) as [kmsg | err].
  - destruct (_get_absolute_path rt config direction (element (data_v2 kmsg)))
      as [item_path | e1] eqn:Hpath; cbn [bind raised yielded logged In].
    + destruct (exists_ rt item_path) as [item_exists | e2] eqn:Hlookup;
        cbn [bind raised yielded logged In].
      * split.
        -- intros [H | []]. injection H as Ht Hy.
           exists kmsg, (if negb item_exists then NOT_FOUND else FOUND).
           subst tag y. rewrite Hpath. cbn [bind]. rewrite Hlookup. auto.
        -- intros [k [st [Hk [Hst [Ht Hy]]]]].
           injection Hk as <-. rewrite Hpath in Hst. cbn [bind] in Hst.
           rewrite Hlookup in Hst. injection Hst as <-. left. congruence.
      * split.
        -- destruct (is_Exception e2); cbn; intros [].
        -- intros [k [st [Hk [Hst _]]]]. injection Hk as <-.
           rewrite Hpath in Hst. cbn [bind] in Hst. rewrite Hlookup in Hst.
           discriminate Hst.
    + split.
      * destruct (is_Exception e1); cbn; intros [].
      * intros [k [st [Hk [Hst _]]]]. injection Hk as <-.
        rewrite Hpath in Hst. discriminate Hst.
  - split.
    + destruct (is_Exception err); cbn; intros [].
    + intros [k [st [Hk _]]]. discriminate Hk.
Qed.

Section SpecRouting.

Variables (rt : Runtime) (config : KlioConfig) (in_pcol : PCollection).
Variables (data_input_config data_output_config : DataConfig).

Let lib := SpecLib.lib.
Let pings := ParDo (KlioFilterPing lib config) in_pcol.
Let output_exists :=
ParDo (KlioGcsCheckOutputExists rt lib config) (with_tag "process" pings).
Let output_force :=
ParDo (KlioFilterForce lib config) (with_tag "found" output_exists).

Lemma pings_split (tag : string) (y : bytes) :
In y (with_tag tag pings)
<-> In y in_pcol
    /\ exists kmsg, SpecLib.decode y = Ok kmsg
                    /\ tag = (if ping (metadata kmsg)
                              then "pass_thru" else "process").
Proof.
unfold pings. rewrite in_tagged_ParDo.
cbn [KlioFilterPing lib SpecLib.lib]. unfold SpecLib.KlioFilterPing.
split.
- intros [x [Hx Hy]]. apply marker_filter_yields in Hy.
  destruct Hy as [k [Hk [Ht ->]]]. split; [exact Hx |].
  exists k. split; [exact Hk |]. rewrite Ht.
  destruct (ping (metadata k)); reflexivity.
- intros [Hy [k [Hk Ht]]]. exists y. split; [exact Hy |].
  apply marker_filter_yields. exists k. split; [exact Hk |].
  split; [| reflexivity]. rewrite Ht.
  destruct (ping (metadata k)); reflexivity.
Qed.

Lemma output_exists_split (tag : string) (y : bytes) :
In y (with_tag tag output_exists)
<-> exists e kmsg state,
      In e in_pcol /\ SpecLib.decode e = Ok kmsg
      /\ ping (metadata kmsg) = false
      /\ lookup_state rt config OUTPUT kmsg = Ok state
      /\ tag = DataExistState_value state
      /\ y = SpecLib.encode kmsg.
Proof.
unfold output_exists. rewrite in_tagged_ParDo. split.
- intros [x [Hx Hy]]. apply pings_split in Hx.
  destruct Hx as [Hin [k [Hk Ht]]].
  apply check_exists_yields in Hy.
  destruct Hy as [k' [st [Hk' [Hst [Htag ->]]]]].
  assert (k' = k) by congruence. subst k'.
  exists x, k, st. repeat split; try assumption.
  destruct (ping (metadata k)); [discriminate Ht | reflexivity].
- intros [e [k [st [Hin [Hk [Hping [Hst [Htag ->]]]]]]]].
  exists e. split.
  + apply pings_split. split; [exact Hin |]. exists k.
    rewrite Hping. split; [exact Hk | reflexivity].
  + apply check_exists_yields. exists k, st. auto.
Qed.

Lemma output_force_split (tag : string) (y : bytes) :
In y (with_tag tag output_force)
<-> exists e kmsg,
      In e in_pcol /\ SpecLib.decode e = Ok kmsg
      /\ ping (metadata kmsg) = false
      /\ lookup_state rt config OUTPUT kmsg = Ok FOUND
      /\ tag = (if force (metadata kmsg) then "process" else "pass_thru")
      /\ y = SpecLib.encode kmsg.
Proof.
unfold output_force. rewrite in_tagged_ParDo.
cbn [KlioFilterForce lib SpecLib.lib]. unfold SpecLib.KlioFilterForce.
split.
- intros [x [Hx Hy]]. apply output_exists_split in Hx.
  destruct Hx as [e [k [st [Hin [Hk [Hping [Hst [Htag ->]]]]]]]].
  apply marker_filter_yields in Hy. destruct Hy as [k' [Hk' [Ht ->]]].
  rewrite CodecFacts.decode_encode in Hk'. injection Hk' as <-.
  destruct st; [| discriminate Htag].
  exists e, k. repeat split; try assumption.
  rewrite Ht. destruct (force (metadata k)); reflexivity.
- intros [e [k [Hin [Hk [Hping [Hst [Ht ->]]]]]]].
  exists (SpecLib.encode k). split.
  + apply output_exists_split. exists e, k, FOUND. auto 10.
  + apply marker_filter_yields. exists k.
    split; [apply CodecFacts.decode_encode |].
    split; [| reflexivity]. rewrite Ht.
    destruct (force (metadata k)); reflexivity.
Qed.


Lemma input_stage_of_encoded (to_filter_input : PCollection)
  (kmsg : KlioMessage) :
In (SpecLib.encode kmsg)
   (input_filter_stage rt lib config data_input_config to_filter_input)
<-> In (SpecLib.encode kmsg) to_filter_input
    /\ (skip_klio_existence_check data_input_config = true
        \/ lookup_state rt config INPUT kmsg = Ok FOUND)
   \/ (skip_klio_existence_check data_input_config = false
       /\ lookup_state rt config INPUT kmsg = Ok FOUND
       /\ exists x, In x to_filter_input /\ SpecLib.decode x = Ok kmsg).
Proof.
unfold input_filter_stage.
destruct (skip_klio_existence_check data_input_config); cbn [negb].
- split.
  + intros H. left. auto.
  + intros [[H _] | [H _]]; [exact H | discriminate H].
- rewrite in_tagged_ParDo. split.
  + intros [x [Hx Hy]]. apply check_exists_yields in Hy.
    destruct Hy as [k [st [Hk [Hst [Htag Henc]]]]].
    apply CodecFacts.encode_injective in Henc. subst k.
    destruct st; [| discriminate Htag].
    right. split; [reflexivity |]. split; [exact Hst |].
    exists x. auto.
  + intros [[Hin [Hskip | Hst]] | [_ [Hst [x [Hx Hk]]]]].
    * discriminate Hskip.
    * exists (SpecLib.encode kmsg). split; [exact Hin |].
      apply check_exists_yields. exists kmsg, FOUND.
      split; [apply CodecFacts.decode_encode | auto].
    * exists x. split; [exact Hx |].
      apply check_exists_yields. exists kmsg, FOUND. auto.
Qed.

(** The two streams that leave the output filters. *)
Let to_pass_thru :=
if skip_klio_existence_check data_output_config
then with_tag "pass_thru" pings
else with_tag "pass_thru" pings ++ with_tag "pass_thru" output_force.

Let to_filter_input :=
if skip_klio_existence_check data_output_config
then with_tag "process" pings
else with_tag "not_found" output_exists ++ with_tag "process" output_force.

Lemma spec_filters_result (label_prefix : option string) :
data_inputs (job_config config) = [data_input_config] ->
data_outputs (job_config config) = [data_output_config] ->
_setup_data_io_filters rt lib config in_pcol label_prefix
= Ok (input_filter_stage rt lib config data_input_config to_filter_input,
      to_pass_thru).
Proof.
intros Hin Hout.
rewrite (setup_filters_single rt lib config in_pcol label_prefix _ _ Hin Hout).
unfold output_filter_stage, to_pass_thru, to_filter_input.
fold pings. fold output_exists. fold output_force.
destruct (skip_klio_existence_check data_output_config); cbn [negb].
- reflexivity.
- rewrite !Flatten_pair. reflexivity.
Qed.



(** An envelope arrives when some element of the input stream decodes to
  it. *)
Let arrives (kmsg : KlioMessage) : Prop :=
exists e, In e in_pcol /\ SpecLib.decode e = Ok kmsg.

Hypothesis output_checked :
skip_klio_existence_check data_output_config = false.

Lemma to_filter_input_encoded (kmsg : KlioMessage) :
In (SpecLib.encode kmsg) to_filter_input
<-> arrives kmsg /\ ping (metadata kmsg) = false
    /\ (lookup_state rt config OUTPUT kmsg = Ok NOT_FOUND
        \/ (lookup_state rt config OUTPUT kmsg = Ok FOUND
            /\ force (metadata kmsg) = true)).
Proof.
unfold to_filter_input, arrives. rewrite output_checked, in_app_iff.
rewrite output_exists_split, output_force_split. split.
- intros [[e [k [st [Hin [Hk [Hping [Hst [Htag Henc]]]]]]]]
         | [e [k [Hin [Hk [Hping [Hst [Htag Henc]]]]]]]];
    apply CodecFacts.encode_injective in Henc; subst k.
  + destruct st; [discriminate Htag |]. eauto 10.
  + destruct (force (metadata kmsg)); [| discriminate Htag]. eauto 10.
- intros [[e [Hin Hk]] [Hping [Hst | [Hst Hforce]]]].
  + left. exists e, kmsg, NOT_FOUND. auto 10.
  + right. exists e, kmsg. rewrite Hforce. auto 10.
Qed.

Lemma to_pass_thru_encoded (kmsg : KlioMessage) :
ping (metadata kmsg) = false ->
(In (SpecLib.encode kmsg) to_pass_thru
 <-> arrives kmsg
     /\ lookup_state rt config OUTPUT kmsg = Ok FOUND
     /\ force (metadata kmsg) = false).
Proof.
intros Hping. unfold to_pass_thru, arrives.
rewrite output_checked, in_app_iff, pings_split, output_force_split. split.
- intros [[_ [k [Hk Htag]]]
         | [e [k [Hin [Hk [_ [Hst [Htag Henc]]]]]]]].
  + rewrite CodecFacts.decode_encode in Hk. injection Hk as <-.
    rewrite Hping in Htag. discriminate Htag.
  + apply CodecFacts.encode_injective in Henc. subst k.
    destruct (force (metadata kmsg)); [discriminate Htag |]. eauto 10.
- intros [[e [Hin Hk]] [Hst Hforce]].
  right. exists e, kmsg. rewrite Hforce. auto 10.
Qed.

Lemma to_process_encoded (kmsg : KlioMessage) :
In (SpecLib.encode kmsg)
   (input_filter_stage rt lib config data_input_config to_filter_input)
<-> In (SpecLib.encode kmsg) to_filter_input
    /\ (skip_klio_existence_check data_input_config = true
        \/ lookup_state rt config INPUT kmsg = Ok FOUND).
Proof.
rewrite input_stage_of_encoded. split.
- intros [H | [_ [Hst [x [Hx Hk]]]]]; [exact H |].
  split; [| right; exact Hst].
  assert (Hx' := Hx). unfold to_filter_input in Hx'.
  rewrite output_checked in Hx'. apply in_app_or in Hx'.
  assert (Henc : exists k, x = SpecLib.encode k).
  { destruct Hx' as [H | H].
    - apply output_exists_split in H.
      destruct H as [e [k [st [_ [_ [_ [_ [_ ->]]]]]]]]. eauto.
    - apply output_force_split in H.
      destruct H as [e [k [_ [_ [_ [_ [_ ->]]]]]]]. eauto. }
  destruct Henc as [k ->].
  rewrite CodecFacts.decode_encode in Hk. injection Hk as ->. exact Hx.
- intros H. left. exact H.
Qed.

Lemma spec_output_stage_result :
output_filter_stage rt lib config data_output_config pings
= Ok (to_pass_thru, to_filter_input).
Proof.
unfold output_filter_stage, to_pass_thru, to_filter_input.
fold output_exists. fold output_force.
rewrite output_checked. cbn [negb]. rewrite !Flatten_pair. reflexivity.
Qed.

End SpecRouting.



(** C4, as the code has it.  With the output existence check enabled, an
    element that is not a ping and whose output is not found, or is found
    while the element is forced, is in the stream that leaves the output
    filters for processing, and is in the stream given to the run callable
    exactly when the input existence check is skipped or finds its input;
    an element whose output is found and that is not forced is in the
    pass-thru stream and never in the stream given to the run callable. *)
Theorem output_existence_and_force_routing
    (rt : Runtime) (config : KlioConfig) (in_pcol : PCollection)
    (label_prefix : option string)
    (data_input_config data_output_config : DataConfig)
    (e : bytes) (kmsg : KlioMessage) :
  data_inputs (job_config config) = [data_input_config] ->
  data_outputs (job_config config) = [data_output_config] ->
  skip_klio_existence_check data_output_config = false ->
  In e in_pcol ->
  SpecLib.decode e = Ok kmsg ->
  ping (metadata kmsg) = false ->
  exists to_process to_pass_thru to_filter_input,
    _setup_data_io_filters rt SpecLib.lib config in_pcol label_prefix
    = Ok (to_process, to_pass_thru)
    /\ output_filter_stage rt SpecLib.lib config data_output_config
         (ParDo (KlioFilterPing SpecLib.lib config) in_pcol)
       = Ok (to_pass_thru, to_filter_input)
    /\ to_process
       = input_filter_stage rt SpecLib.lib config data_input_config
           to_filter_input
    /\ let input_allows :=
         skip_klio_existence_check data_input_config = true
         \/ lookup_state rt config INPUT kmsg = Ok FOUND in
       let item := SpecLib.encode kmsg in
       (lookup_state rt config OUTPUT kmsg = Ok NOT_FOUND ->
        In item to_filter_input
        /\ (In item to_process <-> input_allows)
        /\ ~ In item to_pass_thru)
       /\ (lookup_state rt config OUTPUT kmsg = Ok FOUND ->
           force (metadata kmsg) = false ->
           In item to_pass_thru
           /\ ~ In item to_filter_input
           /\ ~ In item to_process)
       /\ (lookup_state rt config OUTPUT kmsg = Ok FOUND ->
           force (metadata kmsg) = true ->
           In item to_filter_input
           /\ (In item to_process <-> input_allows)
           /\ ~ In item to_pass_thru).
Proof.
  intros Hin Hout Hchecked He Hdec Hping.
  eexists. eexists. eexists. split; [| split; [| split]].
  - apply (spec_filters_result rt config in_pcol data_input_config
             data_output_config label_prefix Hin Hout).
  - apply (spec_output_stage_result rt config in_pcol data_output_config
             Hchecked).
  - reflexivity.
  - pose proof (to_filter_input_encoded rt config in_pcol data_output_config
                  Hchecked kmsg) as Hfilter.
    pose proof (to_pass_thru_encoded rt config in_pcol data_output_config
                  Hchecked kmsg Hping) as Hpass.
    pose proof (to_process_encoded rt config in_pcol data_input_config
                  data_output_config Hchecked kmsg) as Hprocess.
    assert (Harrives : exists e0, In e0 in_pcol /\ SpecLib.decode e0 = Ok kmsg)
      by (exists e; auto).
    cbv zeta. split; [| split].
    + intros Hstate.
      pose proof (proj2 Hfilter
                    (conj Harrives (conj Hping (or_introl Hstate)))) as Hf.
      split; [exact Hf | split].
      * rewrite Hprocess. tauto.
      * rewrite Hpass. intros [_ [Hfound _]]. congruence.
    + intros Hstate Hforce.
      split; [apply Hpass; auto | split].
      * rewrite Hfilter. intros [_ [_ [H | [_ H]]]]; congruence.
      * rewrite Hprocess, Hfilter.
        intros [[_ [_ [H | [_ H]]]] _]; congruence.
    + intros Hstate Hforce.
      pose proof (proj2 Hfilter
                    (conj Harrives
                       (conj Hping (or_intror (conj Hstate Hforce))))) as Hf.
      split; [exact Hf | split].
      * rewrite Hprocess. tauto.
      * rewrite Hpass. intros [_ [_ Hno]]. congruence.
Qed.

(** A forced element of a sample job whose output and input both exist
    reaches the stream given to the run callable. *)
Lemma output_existence_and_force_routing_witness :
  let rt := Sample.runtime Sample.store Sample.sources in
  let cfg := Sample.job [] [] [Sample.data_in false] [Sample.data_out false] in
  let mb := SpecLib.encode (Sample.msg "b" false true) in
  exists to_process to_pass_thru,
    _setup_data_io_filters rt SpecLib.lib cfg [mb] None
    = Ok (to_process, to_pass_thru)
    /\ In mb to_process.
Proof.
  intros rt cfg mb.
  destruct (output_existence_and_force_routing rt cfg [mb] None
              (Sample.data_in false) (Sample.data_out false) mb
              (Sample.msg "b" false true)
              eq_refl eq_refl eq_refl (or_introl eq_refl) eq_refl eq_refl)
    as [to_process [to_pass_thru [to_filter_input
         [Hsetup [_ [_ [_ [_ Hforced]]]]]]]].
  exists to_process, to_pass_thru. split; [exact Hsetup |].
  destruct (Hforced eq_refl eq_refl) as [_ [Hreaches _]].
  apply Hreaches. right. reflexivity.
Defined.

(** C4, as stated, fails: the output of this forced element exists, its
    input does not, and with both checks enabled it reaches neither the
    stream given to the run callable nor the pass-thru stream. *)
Lemma forced_element_without_input_is_dropped :
  let rt := Sample.runtime Sample.store Sample.sources in
  let cfg := Sample.job [] [] [Sample.data_in false] [Sample.data_out false] in
  let kmsg := Sample.msg "a" false true in
  lookup_state rt cfg OUTPUT kmsg = Ok FOUND
  /\ force (metadata kmsg) = true
  /\ lookup_state rt cfg INPUT kmsg = Ok NOT_FOUND
  /\ exists to_process to_pass_thru,
       _setup_data_io_filters rt SpecLib.lib cfg [SpecLib.encode kmsg] None
       = Ok (to_process, to_pass_thru)
       /\ ~ In (SpecLib.encode kmsg) to_process.
Proof.
  cbv zeta. split; [reflexivity | split; [reflexivity | split; [reflexivity |]]].
  exists [], []. split; [vm_compute; reflexivity | intros []].
Qed.

(** * Properties of the further code *)

(** ** [_get_image_tag] *)

Lemma before_colon_of_tagged (s t : string) :
  before_colon (before_colon s ++ String ":" t)%string = before_colon s.
Proof.
  induction s as [| c s IH]; [reflexivity |].
  cbn [before_colon]. destruct (Ascii.eqb c ":") eqn:E.
  - reflexivity.
  - cbn [String.append before_colon]. rewrite E, IH. reflexivity.
Qed.

(** X1. Retagging: applying [_get_image_tag] with a non-empty tag to an
    image that was tagged before gives the same result as applying it to
    the original image, and what stands before the first colon of the image
    is never changed. *)
Theorem image_tag_last_tag_wins
    (image : string) (first_tag tag : option string) :
  truthy tag = true ->
  _get_image_tag (_get_image_tag image first_tag) tag = _get_image_tag image tag
  /\ before_colon (_get_image_tag image tag) = before_colon image.
Proof.
  intros Htag. unfold _get_image_tag. rewrite Htag. cbn [negb].
  split.
  - destruct (truthy first_tag); cbn [negb]; cbv zeta; [| reflexivity].
    change (":" ++ str_format first_tag)%string
      with (String ":" (str_format first_tag)).
    rewrite before_colon_of_tagged. reflexivity.
  - cbv zeta. apply before_colon_of_tagged.
Qed.

Lemma image_tag_last_tag_wins_witness :
  _get_image_tag (_get_image_tag "gcr.io/proj/job:v1" (Some "v2")) (Some "v3")
  = "gcr.io/proj/job:v3".
Proof.
  destruct (image_tag_last_tag_wins "gcr.io/proj/job:v1" (Some "v2")
              (Some "v3") eq_refl) as [H _].
  rewrite H. reflexivity.
Defined.

(** ** [_get_clean_label_value] *)

Lemma clean_char_is_label_char (c : ascii) :
  is_clean_label_char c = true -> is_label_char c = true.
Proof.
  unfold is_clean_label_char, is_label_char.
  destruct (is_ascii_lower c), (is_ascii_upper c), (is_ascii_digit c),
    (Ascii.eqb c "_"), (Ascii.eqb c "-"); cbn; congruence.
Qed.

Lemma lower_of_label_char (c : ascii) :
  is_label_char c = true -> is_clean_label_char (ascii_lower c) = true.
Proof.
  destruct c as [[] [] [] [] [] [] [] []]; vm_compute; congruence.
Qed.

Lemma lower_of_clean_char (c : ascii) :
  is_clean_label_char c = true -> ascii_lower c = c.
Proof.
  destruct c as [[] [] [] [] [] [] [] []]; vm_compute; congruence.
Qed.

Lemma str_forallb_app (p : ascii -> bool) (s t : string) :
  str_forallb p (s ++ t)%string = str_forallb p s && str_forallb p t.
Proof.
  induction s as [| c s IH]; [reflexivity |].
  cbn. rewrite IH, andb_assoc. reflexivity.
Qed.

Lemma str_forallb_impl (p q : ascii -> bool) (s : string) :
  (forall c, p c = true -> q c = true) ->
  str_forallb p s = true -> str_forallb q s = true.
Proof.
  intros Hpq. induction s as [| c s IH]; [reflexivity |].
  cbn. intros H. apply andb_true_iff in H. destruct H as [Hc Hs].
  rewrite (Hpq c Hc), (IH Hs). reflexivity.
Qed.

Lemma append_empty_r (s : string) : (s ++ "")%string = s.
Proof. induction s as [| c s IH]; [reflexivity | cbn; rewrite IH; reflexivity]. Qed.

Lemma append_assoc (s t u : string) :
  ((s ++ t) ++ u = s ++ (t ++ u))%string.
Proof. induction s as [| c s IH]; [reflexivity | cbn; rewrite IH; reflexivity]. Qed.

Lemma append_is_empty (s t : string) : (s ++ t)%string = "" -> s = "" /\ t = "".
Proof. destruct s; cbn; [auto | discriminate]. Qed.

Lemma flush_run_valid (run : string) :
  str_forallb is_label_char run = true ->
  Forall (fun r => r <> "" /\ str_forallb is_label_char r = true)
         (flush_run run).
Proof.
  intros H. destruct run; cbn; constructor; [| constructor].
  split; [discriminate | exact H].
Qed.

Lemma findall_label_runs (s run : string) :
  str_forallb is_label_char run = true ->
  Forall (fun r => r <> "" /\ str_forallb is_label_char r = true)
         (findall_label run s).
Proof.
  revert run. induction s as [| c s IH]; intros run Hrun; cbn [findall_label].
  - apply flush_run_valid. exact Hrun.
  - destruct (is_label_char c) eqn:Hc.
    + apply IH. rewrite str_forallb_app, Hrun. cbn. rewrite Hc. reflexivity.
    + apply Forall_app. split; [apply flush_run_valid; exact Hrun |].
      apply IH. reflexivity.
Qed.

Lemma findall_label_nil (s run : string) :
  findall_label run s = []
  <-> run = "" /\ str_forallb (fun c => negb (is_label_char c)) s = true.
Proof.
  revert run. induction s as [| c s IH]; intros run; cbn [findall_label].
  - destruct run; cbn; split; intros H; try discriminate; auto.
    destruct H as [H _]. discriminate H.
  - cbn [str_forallb]. destruct (is_label_char c) eqn:Hc; cbn [negb andb].
    + rewrite IH. split.
      * intros [H _]. apply append_is_empty in H. destruct H as [_ H].
        discriminate H.
      * intros [_ H]. discriminate H.
    + split.
      * intros H. apply app_eq_nil in H. destruct H as [Hflush Hrest].
        apply IH in Hrest. destruct Hrest as [_ Hrest].
        split; [| exact Hrest]. destruct run; [reflexivity | discriminate Hflush].
      * intros [-> Hrest]. cbn. apply IH. auto.
Qed.

Lemma findall_label_whole (s run : string) :
  str_forallb is_label_char s = true ->
  findall_label run s = flush_run (run ++ s)%string.
Proof.
  revert run. induction s as [| c s IH]; intros run Hs; cbn [findall_label].
  - rewrite append_empty_r. reflexivity.
  - cbn in Hs. apply andb_true_iff in Hs. destruct Hs as [Hc Hs].
    rewrite Hc, (IH _ Hs), append_assoc. reflexivity.
Qed.

Lemma concat_dash_valid (matches : list string) :
  Forall (fun r => r <> "" /\ str_forallb is_label_char r = true) matches ->
  str_forallb is_label_char (String.concat "-" matches) = true
  /\ (matches <> [] -> String.concat "-" matches <> "").
Proof.
  induction 1 as [| r rest [Hne Hr] _ [IHchars IHne]]; [split; [reflexivity | congruence] |].
  cbn [String.concat]. destruct rest as [| r' rest'].
  - split; [exact Hr | intros _; exact Hne].
  - split.
    + rewrite !str_forallb_app, Hr, IHchars. reflexivity.
    + intros _ H. apply append_is_empty in H. destruct H as [H _]. auto.
Qed.

Lemma str_take_forallb (p : ascii -> bool) (n : nat) (s : string) :
  str_forallb p s = true -> str_forallb p (str_take n s) = true.
Proof.
  revert s. induction n as [| n IH]; intros [| c s] H; try reflexivity.
  cbn in *. apply andb_true_iff in H. destruct H as [Hc Hs].
  rewrite Hc, (IH _ Hs). reflexivity.
Qed.

Lemma str_take_length (n : nat) (s : string) :
  (String.length (str_take n s) <= n)%nat.
Proof.
  revert s. induction n as [| n IH]; intros [| c s]; cbn; try lia.
  specialize (IH s). lia.
Qed.

Lemma str_take_all (n : nat) (s : string) :
  (String.length s <= n)%nat -> str_take n s = s.
Proof.
  revert s. induction n as [| n IH]; intros [| c s] H; cbn in *;
    try reflexivity; try lia.
  rewrite IH by lia. reflexivity.
Qed.

Lemma str_lower_ascii_length (s : string) :
  String.length (str_lower_ascii s) = String.length s.
Proof. induction s as [| c s IH]; cbn; [reflexivity | rewrite IH; reflexivity]. Qed.

Lemma str_lower_ascii_clean (s : string) :
  str_forallb is_label_char s = true ->
  str_forallb is_clean_label_char (str_lower_ascii s) = true.
Proof.
  induction s as [| c s IH]; [reflexivity |].
  cbn. intros H. apply andb_true_iff in H. destruct H as [Hc Hs].
  rewrite (lower_of_label_char c Hc), (IH Hs). reflexivity.
Qed.

Lemma str_lower_ascii_fixes_clean (s : string) :
  str_forallb is_clean_label_char s = true -> str_lower_ascii s = s.
Proof.
  induction s as [| c s IH]; [reflexivity |].
  cbn. intros H. apply andb_true_iff in H. destruct H as [Hc Hs].
  rewrite (lower_of_clean_char c Hc), (IH Hs). reflexivity.
Qed.

Lemma str_lower_take_nonempty (s : string) (n : nat) :
  s <> "" -> str_lower_ascii (str_take (S n) s) <> "".
Proof. destruct s; [congruence | cbn; discriminate]. Qed.

Lemma clean_label_value_facts (label_value : string) :
  (_get_clean_label_value label_value = None
   <-> str_forallb (fun c => negb (is_label_char c)) label_value = true)
  /\ (forall ret_label,
        _get_clean_label_value label_value = Some ret_label ->
        ret_label <> ""
        /\ (String.length ret_label <= 63)%nat
        /\ str_forallb is_clean_label_char ret_label = true).
Proof.
  unfold _get_clean_label_value.
  pose proof (findall_label_nil label_value "") as Hnil.
  pose proof (findall_label_runs label_value "" eq_refl) as Hruns.
  destruct (findall_label "" label_value) as [| r rest] eqn:Hfind.
  - split.
    + split; [intros _; apply Hnil; reflexivity | reflexivity].
    + intros ret_label H. discriminate H.
  - split.
    + split; [discriminate |].
      intros H. destruct Hnil as [_ Hnil].
      discriminate (Hnil (conj eq_refl H)).
    + intros ret_label H.
      assert (E : ret_label
                  = str_lower_ascii
                      (str_take 63 (String.concat "-" (r :: rest))))
        by congruence.
      rewrite E. clear E H.
      destruct (concat_dash_valid (r :: rest) Hruns) as [Hchars Hne].
      split; [| split].
      * apply (str_lower_take_nonempty _ 62). apply Hne. discriminate.
      * rewrite str_lower_ascii_length. apply str_take_length.
      * apply str_lower_ascii_clean, str_take_forallb. exact Hchars.
Qed.

(** X2. Shape of a cleaned label value: [_get_clean_label_value] returns
    nothing exactly when the value holds no label character; otherwise the
    result is not empty, has at most 63 characters, and consists of lower
    case letters, digits, underscores and dashes only. *)
Theorem clean_label_value_shape (label_value : string) :
  (_get_clean_label_value label_value = None
   <-> str_forallb (fun c => negb (is_label_char c)) label_value = true)
  /\ (forall ret_label,
        _get_clean_label_value label_value = Some ret_label ->
        ret_label <> ""
        /\ (String.length ret_label <= 63)%nat
        /\ str_forallb is_clean_label_char ret_label = true).
Proof. exact (clean_label_value_facts label_value). Qed.

(** X3. Cleaning is idempotent: a value that [_get_clean_label_value]
    returned is returned unchanged when it is cleaned again. *)
Theorem clean_label_value_idempotent (label_value ret_label : string) :
  _get_clean_label_value label_value = Some ret_label ->
  _get_clean_label_value ret_label = Some ret_label.
Proof.
  intros H.
  destruct (clean_label_value_facts label_value) as [_ Hshape].
  destruct (Hshape ret_label H) as [Hne [Hlen Hclean]].
  assert (Hlabel : str_forallb is_label_char ret_label = true)
    by (apply (str_forallb_impl is_clean_label_char); auto using clean_char_is_label_char).
  unfold _get_clean_label_value.
  rewrite (findall_label_whole ret_label "" Hlabel). cbn [String.append].
  destruct ret_label as [| c rest]; [congruence |].
  cbn [flush_run String.concat].
  rewrite (str_take_all 63 _ Hlen), (str_lower_ascii_fixes_clean _ Hclean).
  reflexivity.
Qed.

Lemma clean_label_value_idempotent_witness :
  _get_clean_label_value "0.2.0.dev1" = Some "0-2-0-dev1"
  /\ _get_clean_label_value "0-2-0-dev1" = Some "0-2-0-dev1".
Proof.
  split; [reflexivity |].
  apply (clean_label_value_idempotent "0.2.0.dev1" "0-2-0-dev1"). reflexivity.
Defined.

(** ** [_set_google_cloud_options] *)

Lemma environ_labels_extend (src : LabelSources)
    (table : list (string * string)) (labels : list string) :
  exists env_labels,
    fold_left (environ_label src) table labels = labels ++ env_labels
    /\ (List.length env_labels <= List.length table)%nat
    /\ Forall
         (fun l => exists label os_key value,
              In (label, os_key) table
              /\ _get_clean_label_value (environ_get src os_key) = Some value
              /\ l = (label ++ "=" ++ value)%string)
         env_labels.
Proof.
  revert labels. induction table as [| [label os_key] table IH]; intros labels.
  - exists []. cbn. rewrite app_nil_r. auto.
  - cbn [fold_left].
    assert (Hstep :
      environ_label src labels (label, os_key) = labels
      \/ exists value,
           _get_clean_label_value (environ_get src os_key) = Some value
           /\ environ_label src labels (label, os_key)
              = labels ++ [(label ++ "=" ++ value)%string]).
    { unfold environ_label.
      destruct (_get_clean_label_value (environ_get src os_key)) as [value |].
      - destruct (truthy (Some value)); [right; exists value; auto | left; auto].
      - left. reflexivity. }
    destruct Hstep as [Hstep | [value [Hvalue Hstep]]]; rewrite Hstep.
    + destruct (IH labels) as [env [Heq [Hlen Hall]]].
      exists env. split; [exact Heq |]. split; [cbn; lia |].
      eapply Forall_impl; [| exact Hall].
      intros l [l1 [k1 [v1 [Hin H]]]]. exists l1, k1, v1. cbn. auto.
    + destruct (IH (labels ++ [(label ++ "=" ++ value)%string]))
        as [env [Heq [Hlen Hall]]].
      exists ((label ++ "=" ++ value)%string :: env).
      split; [rewrite Heq, <- app_assoc; reflexivity |].
      split; [cbn; lia |].
      constructor.
      * exists label, os_key, value. cbn. auto.
      * eapply Forall_impl; [| exact Hall].
        intros l [l1 [k1 [v1 [Hin H]]]]. exists l1, k1, v1. cbn. auto.
Qed.

(** X4. Labels of a job: [_set_google_cloud_options] keeps the labels that
    were set, in order, appends the three Klio version labels, then at most
    one label per entry of [DATAFLOW_LABEL_KEY_TO_OS_ENVIRON], each with a
    cleaned value of the environment, and last at most one [deployed_by]
    label, which is [deployed_by=CI] whenever [CI] is "true" in any
    letter case. *)
Theorem google_cloud_labels
    (job_name : string) (runtime_conf : RuntimeConf) (src : LabelSources)
    (gcp_opts : GoogleCloudOptions) :
  let old :=
    match gcp_labels gcp_opts with
    | Some labels => labels
    | None => []
    end in
  exists env_labels deployed,
    gcp_labels (_set_google_cloud_options job_name runtime_conf src gcp_opts)
    = Some (old
            ++ [("klio-exec="
                 ++ str_format (_get_clean_label_value (klio_exec_version src)))%string;
                ("klio-core="
                 ++ str_format (_get_clean_label_value (klio_core_version src)))%string;
                ("klio="
                 ++ str_format (_get_clean_label_value (klio_lib_version src)))%string]
            ++ env_labels ++ deployed)
    /\ (List.length env_labels <= 6)%nat
    /\ Forall
         (fun l => exists label os_key value,
              In (label, os_key) DATAFLOW_LABEL_KEY_TO_OS_ENVIRON
              /\ _get_clean_label_value (environ_get src os_key) = Some value
              /\ l = (label ++ "=" ++ value)%string)
         env_labels
    /\ (deployed = []
        \/ deployed = ["deployed_by=CI"]
        \/ deployed
           = [("deployed_by=" ++ str_lower src (environ_get src "USER"))%string])
    /\ (str_lower src (environ_get src "CI") = "true" ->
        deployed = ["deployed_by=CI"]).
Proof.
  intros old. unfold _set_google_cloud_options, environ_labels.
  cbn [gcp_labels].
  match goal with
  | |- context [fold_left (environ_label src) ?table ?labels] =>
      destruct (environ_labels_extend src table labels)
        as [env_labels [Heq [Hlen Hall]]]
  end.
  rewrite Heq.
  assert (Hold : match gcp_labels gcp_opts with
                 | Some (l :: ls) => l :: ls
                 | _ => []
                 end = old).
  { subst old. destruct (gcp_labels gcp_opts) as [[| l ls] |]; reflexivity. }
  rewrite Hold.
  destruct (String.eqb_spec (str_lower src (environ_get src "CI")) "true")
    as [Hci | Hci].
  - exists env_labels, ["deployed_by=CI"].
    rewrite <- !app_assoc. repeat split; auto.
  - destruct (truthy (environ src "USER")).
    + exists env_labels,
        [("deployed_by=" ++ str_lower src (environ_get src "USER"))%string].
      rewrite <- !app_assoc. repeat split; auto. congruence.
    + exists env_labels, [].
      rewrite <- !app_assoc, !app_nil_r. repeat split; auto. congruence.
Qed.

(** ** [_parse_config_pipeline_options] *)

Lemma dict_find_absent {V : Type} (d : list (string * option V)) (key : string) :
  ~ In key (map fst d) ->
  dict_find
    (flat_map (fun kv => match snd kv with
                         | Some v => [(fst kv, v)]
                         | None => []
                         end) d) key = None.
Proof.
  induction d as [| [k v] d IH]; [reflexivity |].
  cbn [map fst In flat_map snd]. intros Hnot.
  assert (Hk : String.eqb k key = false)
    by (apply String.eqb_neq; intros ->; apply Hnot; left; reflexivity).
  assert (Hd : ~ In key (map fst d)) by (intros H; apply Hnot; right; exact H).
  destruct v as [v |]; cbn [app dict_find]; [rewrite Hk |]; apply IH, Hd.
Qed.

Lemma dict_find_without_None {V : Type} (d : list (string * option V))
    (key : string) :
  NoDup (map fst d) ->
  dict_find
    (flat_map (fun kv => match snd kv with
                         | Some v => [(fst kv, v)]
                         | None => []
                         end) d) key
  = dict_get_or_none d key.
Proof.
  induction d as [| [k v] d IH]; [reflexivity |].
  cbn [map fst flat_map snd dict_get_or_none]. intros Hnodup.
  inversion Hnodup as [| k' keys Hnotin Hrest]; subst.
  destruct (String.eqb_spec k key) as [-> | Hneq].
  - destruct v as [v |]; cbn [app dict_find].
    + rewrite String.eqb_refl. reflexivity.
    + apply dict_find_absent. exact Hnotin.
  - apply String.eqb_neq in Hneq.
    destruct v as [v |]; cbn [app dict_find]; [rewrite Hneq |]; apply IH, Hrest.
Qed.

Lemma dict_pop_keys_NoDup {V : Type} (d : list (string * V)) (key : string) :
  NoDup (map fst d) -> NoDup (map fst (dict_pop d key)).
Proof.
  unfold dict_pop. induction d as [| [k v] d IH]; [auto |].
  cbn [map fst filter]. intros H. inversion H as [| k' keys Hnotin Hrest]; subst.
  destruct (negb (String.eqb k key)); [| apply IH, Hrest].
  cbn [map fst]. constructor; [| apply IH, Hrest].
  intros Hin. apply Hnotin. apply in_map_iff in Hin.
  destruct Hin as [[k1 v1] [Hk Hin]]. apply filter_In in Hin.
  apply in_map_iff. exists (k1, v1). tauto.
Qed.

Lemma dict_get_or_none_pop {V : Type} (d : list (string * option V))
    (popped key : string) :
  dict_get_or_none (dict_pop d popped) key
  = if String.eqb key popped then None else dict_get_or_none d key.
Proof.
  unfold dict_pop. induction d as [| [k v] d IH].
  - cbn. destruct (String.eqb key popped); reflexivity.
  - cbn [filter fst]. destruct (String.eqb_spec k popped) as [-> | Hneq];
      cbn [negb dict_get_or_none].
    + rewrite IH. rewrite (String.eqb_sym popped key).
      destruct (String.eqb key popped); reflexivity.
    + rewrite IH. destruct (String.eqb_spec k key) as [-> | Hneq'].
      * apply String.eqb_neq in Hneq. rewrite Hneq. reflexivity.
      * reflexivity.
Qed.

(** X5. What [_parse_config_pipeline_options] keeps: looking a key up in
    the result gives what the options dictionary holds for it, an entry
    with value [None] counting as absent; only
    [worker_harness_container_image] is withheld, and exactly when a setup
    file or a requirements file is configured. *)
Theorem parsed_pipeline_options_lookup {V : Type}
    (pipe_opts_dict : list (string * option V)) (key : string) :
  NoDup (map fst pipe_opts_dict) ->
  dict_find (_parse_config_pipeline_options pipe_opts_dict) key
  = if String.eqb key "worker_harness_container_image"
       && (is_not_None (dict_get_or_none pipe_opts_dict "setup_file")
           || is_not_None (dict_get_or_none pipe_opts_dict "requirements_file"))
    then None
    else dict_get_or_none pipe_opts_dict key.
Proof.
  intros Hnodup. unfold _parse_config_pipeline_options.
  destruct (is_not_None (dict_get_or_none pipe_opts_dict "setup_file")
            || is_not_None (dict_get_or_none pipe_opts_dict "requirements_file")).
  - rewrite dict_find_without_None by (apply dict_pop_keys_NoDup; exact Hnodup).
    rewrite dict_get_or_none_pop, andb_true_r. reflexivity.
  - rewrite dict_find_without_None by exact Hnodup.
    rewrite andb_false_r. reflexivity.
Qed.

Lemma parsed_pipeline_options_lookup_witness :
  let options :=
    [("runner", Some "dataflow"); ("setup_file", Some "setup.py");
     ("requirements_file", None);
     ("worker_harness_container_image", Some "gcr.io/p/img")] in
  dict_find (_parse_config_pipeline_options options)
            "worker_harness_container_image" = None
  /\ dict_find (_parse_config_pipeline_options options) "runner"
     = Some "dataflow".
Proof.
  intros options.
  assert (Hnodup : NoDup (map fst options)).
  { cbn. repeat constructor; cbn; intuition discriminate. }
  split.
  - rewrite (parsed_pipeline_options_lookup options _ Hnodup). reflexivity.
  - reflexivity.
Defined.

(** ** [_generate_input_conf_names] *)

Lemma dict_set_fresh {A : Type} (d : list (string * A)) (key : string) (v : A) :
  ~ In key (map fst d) -> dict_set d key v = d ++ [(key, v)].
Proof.
  induction d as [| [k w] d IH]; [reflexivity |].
  cbn [map fst In dict_set app]. intros Hnot.
  destruct (String.eqb_spec k key) as [-> | _]; [exfalso; auto |].
  rewrite IH by auto. reflexivity.
Qed.

Lemma dict_set_keys {A : Type} (d : list (string * A)) (key : string) (v : A) :
  In key (map fst d) -> map fst (dict_set d key v) = map fst d.
Proof.
  induction d as [| [k w] d IH]; [intros [] |].
  cbn [map fst In dict_set]. intros Hin.
  destruct (String.eqb_spec k key) as [-> | Hneq]; [reflexivity |].
  cbn [map fst]. rewrite IH; [reflexivity |].
  destruct Hin as [H | H]; [congruence | exact H].
Qed.

Lemma dict_set_NoDup {A : Type} (d : list (string * A)) (key : string) (v : A) :
  NoDup (map fst d) -> NoDup (map fst (dict_set d key v)).
Proof.
  intros H. destruct (in_dec string_dec key (map fst d)) as [Hin | Hnot].
  - rewrite dict_set_keys by exact Hin. exact H.
  - rewrite dict_set_fresh by exact Hnot.
    rewrite map_app. cbn [map fst].
    apply NoDup_app; [exact H | repeat constructor; intros [] |].
    intros k Hk [<- | []]. auto.
Qed.

Lemma dict_set_values {A : Type} (d : list (string * A)) (key : string) (v : A)
    (kv : string * A) :
  In kv (dict_set d key v) -> In kv d \/ kv = (key, v).
Proof.
  induction d as [| [k w] d IH]; cbn [dict_set In].
  - intros [<- | []]. auto.
  - destruct (String.eqb_spec k key) as [-> | _]; cbn [In].
    + intros [<- | H]; auto.
    + intros [<- | H]; [auto |]. destruct (IH H); auto.
Qed.

Lemma dict_set_length {A : Type} (d : list (string * A)) (key : string) (v : A) :
  (List.length (dict_set d key v) <= S (List.length d))%nat.
Proof.
  induction d as [| [k w] d IH]; cbn [dict_set List.length]; [lia |].
  destruct (String.eqb k key); cbn [List.length]; lia.
Qed.

Lemma str_of_small_nat (i : nat) :
  (i < 10)%nat -> str_of_nat i = String (ascii_of_nat (48 + i)) "".
Proof.
  intros H. do 10 (destruct i as [| i]; [reflexivity |]). lia.
Qed.

Lemma conf_name_injective (n n' : string) (i j : nat) :
  (i < 10)%nat -> (j < 10)%nat ->
  (n ++ str_of_nat i)%string = (n' ++ str_of_nat j)%string -> i = j.
Proof.
  intros Hi Hj. rewrite (str_of_small_nat i Hi), (str_of_small_nat j Hj).
  intros H. apply append_last_inj in H.
  apply (f_equal nat_of_ascii) in H.
  rewrite !nat_ascii_embedding in H by lia. lia.
Qed.

Section InputConfNames.

Let step (input_dict : list (string * EventInput.t))
    (item : nat * EventInput.t) : list (string * EventInput.t) :=
  let '(index, ev) := item in
  dict_set input_dict (EventInput.name ev ++ str_of_nat index)%string ev.

Let named (item : nat * EventInput.t) : string * EventInput.t :=
  ((EventInput.name (snd item) ++ str_of_nat (fst item))%string, snd item).

Lemma conf_names_invariant (items : list (nat * EventInput.t))
    (acc : list (string * EventInput.t)) (all : list EventInput.t) :
  NoDup (map fst acc) ->
  (forall kv, In kv acc -> In (snd kv) all) ->
  (forall item, In item items -> In (snd item) all) ->
  NoDup (map fst (fold_left step items acc))
  /\ (forall kv, In kv (fold_left step items acc) -> In (snd kv) all)
  /\ (List.length (fold_left step items acc)
      <= List.length acc + List.length items)%nat.
Proof.
  revert acc. induction items as [| [index ev] items IH]; intros acc Hnd Hacc Hitems.
  - cbn. repeat split; auto. lia.
  - cbn [fold_left]. unfold step at 2 4 6.
    destruct (IH (dict_set acc (EventInput.name ev ++ str_of_nat index)%string ev))
      as [H1 [H2 H3]].
    + apply dict_set_NoDup. exact Hnd.
    + intros kv Hin. apply dict_set_values in Hin.
      destruct Hin as [Hin | ->]; [auto |].
      apply (Hitems (index, ev)). left. reflexivity.
    + intros item Hin. apply Hitems. right. exact Hin.
    + repeat split; auto.
      pose proof (dict_set_length acc
                    (EventInput.name ev ++ str_of_nat index)%string ev).
      cbn [List.length]. lia.
Qed.

Lemma conf_names_exact (evs : list EventInput.t) (start : nat)
    (acc : list (string * EventInput.t)) :
  (start + List.length evs <= 10)%nat ->
  (forall k, In k (map fst acc) ->
             exists n j, (j < start)%nat /\ k = (n ++ str_of_nat j)%string) ->
  fold_left step (enumerate_from start evs) acc
  = acc ++ map named (enumerate_from start evs).
Proof.
  revert start acc. induction evs as [| ev evs IH]; intros start acc Hlen Hacc.
  - cbn. rewrite app_nil_r. reflexivity.
  - cbn [enumerate_from fold_left map]. unfold step at 2.
    cbn [List.length] in Hlen.
    rewrite dict_set_fresh.
    + rewrite IH.
      * rewrite <- app_assoc. reflexivity.
      * lia.
      * intros k Hk. rewrite map_app in Hk. apply in_app_or in Hk.
        destruct Hk as [Hk | [<- | []]].
        -- destruct (Hacc k Hk) as [n [j [Hj ->]]]. exists n, j. split; [lia | auto].
        -- exists (EventInput.name ev), start. split; [lia | reflexivity].
    + intros Hin. destruct (Hacc _ Hin) as [n [j [Hj Heq]]].
      apply conf_name_injective in Heq; lia.
Qed.

End InputConfNames.

Lemma enumerate_from_snd {A : Type} (start : nat) (xs : list A)
    (item : nat * A) :
  In item (enumerate_from start xs) -> In (snd item) xs.
Proof.
  revert start. induction xs as [| x xs IH]; intros start; cbn; [auto |].
  intros [<- | H]; [left; reflexivity | right; exact (IH _ H)].
Qed.

Lemma enumerate_from_length {A : Type} (start : nat) (xs : list A) :
  List.length (enumerate_from start xs) = List.length xs.
Proof.
  revert start. induction xs as [| x xs IH]; intros start; cbn;
    [reflexivity | rewrite IH; reflexivity].
Qed.

(** X6. Names of the event inputs: the generated names are pairwise
    distinct, every named configuration is one of the declared event inputs
    and there are never more names than inputs; with at most ten inputs no
    input is lost: the result lists every input, in order, under its name
    followed by its index. *)
Theorem input_conf_names_are_distinct (config : KlioConfig) :
  let inputs := event_inputs (job_config config) in
  let names := _generate_input_conf_names config in
  NoDup (map fst names)
  /\ (forall name ev, In (name, ev) names -> In ev inputs)
  /\ (List.length names <= List.length inputs)%nat
  /\ ((List.length inputs <= 10)%nat ->
      names
      = map (fun item =>
               ((EventInput.name (snd item) ++ str_of_nat (fst item))%string,
                snd item))
            (enumerate_from 0 inputs)).
Proof.
  intros inputs names. subst names. unfold _generate_input_conf_names.
  fold inputs.
  destruct (conf_names_invariant (enumerate_from 0 inputs) [] inputs)
    as [Hnodup [Hvalues Hlength]].
  - constructor.
  - intros kv [].
  - intros item. apply enumerate_from_snd.
  - split; [exact Hnodup |]. split; [| split].
    + intros name ev Hin. exact (Hvalues (name, ev) Hin).
    + rewrite enumerate_from_length in Hlength. exact Hlength.
    + intros Hten.
      apply (conf_names_exact inputs 0 []); [cbn; lia | intros k []].
Qed.

(** ** The wrapped entry point and the existence check, for any codec *)

(** X7. Containment by [_wrap_process], whatever the wrapped method does:
    no exception that derives from [Exception] leaves the wrapper; what the
    method yielded is handed on in full, also when the method failed after
    yielding; and an exception that is caught adds exactly one error record,
    holding the raw element and the exception, to what the method logged. *)
Theorem wrapped_entry_point_contains
    (lib : KlioLib) (config : KlioConfig)
    (meth : KlioMessage -> Yielded TaggedOutput) (incoming_item : bytes) :
  let r := _wrap_process lib config meth incoming_item in
  (forall err, raised r = Some err -> is_Exception err = false)
  /\ match _to_klio_message lib incoming_item config with
     | Ok kmsg =>
         yielded r = yielded (meth kmsg)
         /\ match raised (meth kmsg) with
            | Some err =>
                if is_Exception err
                then raised r = None
                     /\ logged r
                        = logged (meth kmsg)
                          ++ [log_error dropping_fmt incoming_item err true]
                else raised r = Some err /\ logged r = logged (meth kmsg)
            | None => r = meth kmsg
            end
     | Raise err =>
         yielded r = []
         /\ if is_Exception err
            then raised r = None
                 /\ logged r = [log_error dropping_fmt incoming_item err true]
            else raised r = Some err /\ logged r = []
     end.
Proof.
  cbv zeta. split; [apply wrap_process_contains |].
  unfold _wrap_process.
  destruct (_to_klio_message lib incoming_item config) as [kmsg | err].
  - destruct (raised (meth kmsg)) as [err |] eqn:Hr.
    + destruct (is_Exception err); cbn; auto.
    + auto.
  - destruct (is_Exception err); cbn; auto.
Qed.

Lemma check_exists_one_output (rt : Runtime) (lib : KlioLib)
    (config : KlioConfig) (direction : KlioIODirection) (x : bytes) :
  yielded (check_exists_entry rt lib config direction x) = []
  \/ exists kmsg state,
       yielded (check_exists_entry rt lib config direction x)
       = [(DataExistState_value state, SerializeToString lib kmsg)].
Proof.
  unfold check_exists_entry, _wrap_process, process.
  destruct (_to_klio_message lib x config) as [kmsg | err].
  - destruct (_get_absolute_path rt config direction (element (data_v2 kmsg)))
      as [item_path | e1]; cbn [raised yielded].
    + destruct (exists_ rt item_path) as [item_exists | e2];
        cbn [raised yielded].
      * right. exists kmsg, (if negb item_exists then NOT_FOUND else FOUND).
        reflexivity.
      * left. destruct (is_Exception e2); reflexivity.
    + left. destruct (is_Exception e1); reflexivity.
  - left. destruct (is_Exception err); reflexivity.
Qed.

Lemma with_tag_app (tag : string) (xs ys : list TaggedOutput) :
  with_tag tag (xs ++ ys) = with_tag tag xs ++ with_tag tag ys.
Proof. unfold with_tag. rewrite filter_app, map_app. reflexivity. Qed.

Lemma with_tag_length (tag : string) (xs : list TaggedOutput) :
  (List.length (with_tag tag xs) <= List.length xs)%nat.
Proof. unfold with_tag. rewrite length_map. apply filter_length_le. Qed.

Lemma two_tags_length (tag tag' : string) (xs : list TaggedOutput) :
  tag <> tag' ->
  (List.length (with_tag tag xs) + List.length (with_tag tag' xs)
   <= List.length xs)%nat.
Proof.
  intros Hneq. unfold with_tag. rewrite !length_map.
  induction xs as [| [t v] xs IH]; [cbn; lia |].
  cbn [filter fst].
  destruct (String.eqb_spec t tag) as [-> | _].
  - destruct (String.eqb_spec tag tag') as [E | _]; [congruence |].
    cbn [List.length]. lia.
  - destruct (String.eqb t tag'); cbn [List.length]; lia.
Qed.

Lemma ParDo_length (fn : DoFn) (pcoll : PCollection) :
  (forall x, List.length (yielded (fn x)) <= 1)%nat ->
  (List.length (ParDo fn pcoll) <= List.length pcoll)%nat.
Proof.
  intros Hone. induction pcoll as [| x pcoll IH]; [cbn; lia |].
  rewrite ParDo_cons, length_app. specialize (Hone x). cbn [List.length]. lia.
Qed.

Lemma check_exists_at_most_one (rt : Runtime) (lib : KlioLib)
    (config : KlioConfig) (direction : KlioIODirection) (x : bytes) :
  (List.length (yielded (check_exists_entry rt lib config direction x)) <= 1)%nat.
Proof.
  destruct (check_exists_one_output rt lib config direction x)
    as [H | [kmsg [state H]]]; rewrite H; cbn; lia.
Qed.

(** X8. Output of an existence check: every element gives at most one
    output, tagged "found" or "not_found" and nothing else, so the two
    tagged streams together are the whole output of the stage and hold no
    more elements than the input. *)
Theorem existence_check_splits_in_two
    (rt : Runtime) (lib : KlioLib) (config : KlioConfig)
    (direction : KlioIODirection) (pcoll : PCollection) :
  let outputs := ParDo (check_exists_entry rt lib config direction) pcoll in
  Forall (fun o => fst o = "found" \/ fst o = "not_found") outputs
  /\ List.length (with_tag "found" outputs)
     + List.length (with_tag "not_found" outputs)
     = List.length outputs
  /\ (List.length outputs <= List.length pcoll)%nat.
Proof.
  cbv zeta. split; [| split].
  - apply Forall_forall. intros o Hin. apply in_ParDo in Hin.
    destruct Hin as [x [_ Hin]].
    destruct (check_exists_one_output rt lib config direction x)
      as [H | [kmsg [state H]]]; rewrite H in Hin.
    + destruct Hin.
    + destruct Hin as [<- | []]. destruct state; cbn; auto.
  - induction pcoll as [| x pcoll IH]; [reflexivity |].
    rewrite ParDo_cons, !with_tag_app, !length_app.
    destruct (check_exists_one_output rt lib config direction x)
      as [H | [kmsg [state H]]]; rewrite H.
    + cbn. lia.
    + destruct state; cbn; lia.
  - apply ParDo_length. intros x. apply check_exists_at_most_one.
Qed.

(** X9. The filter chain never multiplies elements: when the ping and the
    force filter yield at most one output per element, the stream to
    process and the pass-thru stream that [_setup_data_io_filters] returns
    hold, together, no more elements than the input stream. *)
Theorem filter_chain_never_duplicates
    (rt : Runtime) (lib : KlioLib) (config : KlioConfig)
    (in_pcol : PCollection) (label_prefix : option string)
    (data_input_config data_output_config : DataConfig) :
  data_inputs (job_config config) = [data_input_config] ->
  data_outputs (job_config config) = [data_output_config] ->
  (forall x, List.length (yielded (KlioFilterPing lib config x)) <= 1)%nat ->
  (forall x, List.length (yielded (KlioFilterForce lib config x)) <= 1)%nat ->
  exists to_process to_pass_thru,
    _setup_data_io_filters rt lib config in_pcol label_prefix
    = Ok (to_process, to_pass_thru)
    /\ (List.length to_process + List.length to_pass_thru
        <= List.length in_pcol)%nat.
Proof.
  intros Hin Hout Hping Hforce.
  rewrite (setup_filters_single rt lib config in_pcol label_prefix _ _ Hin Hout).
  set (pings := ParDo (KlioFilterPing lib config) in_pcol).
  assert (Hpings : (List.length pings <= List.length in_pcol)%nat)
    by (apply ParDo_length; exact Hping).
  assert (Hsplit : (List.length (with_tag "process" pings)
                    + List.length (with_tag "pass_thru" pings)
                    <= List.length pings)%nat)
    by (apply two_tags_length; discriminate).
  assert (Hinput : forall to_filter_input,
             (List.length (input_filter_stage rt lib config data_input_config
                             to_filter_input)
              <= List.length to_filter_input)%nat).
  { intros to_filter_input. unfold input_filter_stage.
    destruct (skip_klio_existence_check data_input_config); cbn [negb]; [lia |].
    etransitivity; [apply with_tag_length |].
    apply ParDo_length. intros x. apply check_exists_at_most_one. }
  unfold output_filter_stage.
  destruct (skip_klio_existence_check data_output_config); cbn [negb].
  - cbn [bind]. eexists. eexists. split; [reflexivity |].
    specialize (Hinput (with_tag "process" pings)). lia.
  - rewrite !Flatten_pair. cbn [bind]. eexists. eexists.
    split; [reflexivity |].
    set (output_exists :=
           ParDo (KlioGcsCheckOutputExists rt lib config)
                 (with_tag "process" pings)) in *.
    set (output_force :=
           ParDo (KlioFilterForce lib config)
                 (with_tag "found" output_exists)) in *.
    assert (Hexists : (List.length output_exists
                       <= List.length (with_tag "process" pings))%nat)
      by (apply ParDo_length; intros x; apply check_exists_at_most_one).
    assert (Hstates : (List.length (with_tag "found" output_exists)
                       + List.length (with_tag "not_found" output_exists)
                       <= List.length output_exists)%nat)
      by (apply two_tags_length; discriminate).
    assert (Hforced : (List.length output_force
                       <= List.length (with_tag "found" output_exists))%nat)
      by (apply ParDo_length; exact Hforce).
    assert (Hmarks : (List.length (with_tag "process" output_force)
                      + List.length (with_tag "pass_thru" output_force)
                      <= List.length output_force)%nat)
      by (apply two_tags_length; discriminate).
    specialize (Hinput (with_tag "not_found" output_exists
                        ++ with_tag "process" output_force)).
    rewrite length_app in *. lia.
Qed.

Lemma filter_chain_never_duplicates_witness :
  let rt := Sample.runtime Sample.store Sample.sources in
  let cfg := Sample.job [] [] [Sample.data_in false] [Sample.data_out false] in
  let ma := SpecLib.encode (Sample.msg "a" false false) in
  let mc := SpecLib.encode (Sample.msg "c" false false) in
  exists to_process to_pass_thru,
    _setup_data_io_filters rt SpecLib.lib cfg [ma; mc; Sample.b "junk"] None
    = Ok (to_process, to_pass_thru)
    /\ (List.length to_process + List.length to_pass_thru <= 3)%nat.
Proof.
  intros rt cfg ma mc.
  apply (filter_chain_never_duplicates rt SpecLib.lib cfg
           [ma; mc; Sample.b "junk"] None (Sample.data_in false)
           (Sample.data_out false) eq_refl eq_refl).
  - intros x. cbn [KlioFilterPing SpecLib.lib].
    unfold SpecLib.KlioFilterPing, SpecLib.marker_filter.
    destruct (SpecLib.decode x); cbn; lia.
  - intros x. cbn [KlioFilterForce SpecLib.lib].
    unfold SpecLib.KlioFilterForce, SpecLib.marker_filter.
    destruct (SpecLib.decode x); cbn; lia.
Defined.

(** ** [_get_absolute_path] *)

Lemma append_cancel_l (a x y : string) :
  (a ++ x)%string = (a ++ y)%string -> x = y.
Proof.
  induction a as [| c a IH]; cbn [String.append]; intros H; [exact H |].
  injection H as H. exact (IH H).
Qed.

Lemma length_append (x y : string) :
  String.length (x ++ y) = (String.length x + String.length y)%nat.
Proof.
  induction x as [| c x IH]; cbn [String.append String.length];
    [reflexivity | rewrite IH; reflexivity].
Qed.

Lemma append_cancel_r (s x y : string) :
  (x ++ s)%string = (y ++ s)%string -> x = y.
Proof.
  revert y. induction x as [| c x IH]; intros [| d y] H.
  - reflexivity.
  - apply (f_equal String.length) in H.
    cbn [String.append String.length] in H. rewrite length_append in H. lia.
  - apply (f_equal String.length) in H.
    cbn [String.append String.length] in H. rewrite length_append in H. lia.
  - cbn [String.append] in H. injection H as Hc H.
    rewrite Hc, (IH y H). reflexivity.
Qed.

Lemma prefix_append (a x : string) : String.prefix a (a ++ x) = true.
Proof.
  induction a as [| c a IH]; [destruct x; reflexivity |].
  cbn [String.append]. simpl String.prefix.
  destruct (Ascii.ascii_dec c c) as [_ | Hne]; [exact IH | contradiction].
Qed.

(** X10. Elements are looked up under the location, each at a path of its
    own: for two elements whose names (the decoded element and the suffix)
    do not begin with a slash, [_get_absolute_path] returns two paths that
    both begin with the configured location, and the two paths are equal
    exactly when the decoded elements are.  The witness shows what the
    condition on the slash excludes: under the location [/data], the
    element [/data/a] is looked up at the path of the element [a]. *)
Theorem relative_elements_have_distinct_paths
    (rt : Runtime) (config : KlioConfig) (direction : KlioIODirection)
    (data_config : DataConfig) (elem1 elem2 : bytes)
    (decoded1 decoded2 : string) :
  _data_config config direction = Ok data_config ->
  bytes_decode_utf8 rt elem1 = Ok decoded1 ->
  bytes_decode_utf8 rt elem2 = Ok decoded2 ->
  startswith_sep (decoded1 ++ file_suffix data_config) = false ->
  startswith_sep (decoded2 ++ file_suffix data_config) = false ->
  exists path1 path2,
    _get_absolute_path rt config direction elem1 = Ok path1
    /\ _get_absolute_path rt config direction elem2 = Ok path2
    /\ String.prefix (location data_config) path1 = true
    /\ String.prefix (location data_config) path2 = true
    /\ (path1 = path2 <-> decoded1 = decoded2).
Proof.
  intros Hconfig Hdecode1 Hdecode2 Hrel1 Hrel2.
  unfold _get_absolute_path, _location, _suffix.
  rewrite Hconfig. cbn [bind]. rewrite Hdecode1, Hdecode2. cbn [bind].
  set (loc := location data_config). set (suffix := file_suffix data_config).
  assert (Hshape : exists sep, forall name,
             startswith_sep name = false ->
             os_path_join loc name = (loc ++ sep ++ name)%string).
  { exists (if ((match loc with EmptyString => true | _ => false end)
                || endswith_sep loc)%bool then ""%string else "/"%string).
    intros name Hrel. unfold os_path_join. rewrite Hrel.
    destruct ((match loc with EmptyString => true | _ => false end)
              || endswith_sep loc)%bool; reflexivity. }
  destruct Hshape as [sep Hshape].
  fold suffix in Hrel1, Hrel2.
  rewrite (Hshape _ Hrel1), (Hshape _ Hrel2).
  do 2 eexists. split; [reflexivity | split; [reflexivity |]].
  split; [apply prefix_append | split; [apply prefix_append |]].
  split.
  - intros H. apply append_cancel_l in H. apply append_cancel_l in H.
    exact (append_cancel_r _ _ _ H).
  - intros ->. reflexivity.
Qed.

Lemma relative_elements_have_distinct_paths_witness :
  let rt := Sample.runtime Sample.store Sample.sources in
  let data := mkDataConfig "/data" ".wav" false in
  let cfg := Sample.job [] [] [data] [Sample.data_out false] in
  (exists path1 path2,
     _get_absolute_path rt cfg INPUT (Sample.b "a") = Ok path1
     /\ _get_absolute_path rt cfg INPUT (Sample.b "b") = Ok path2
     /\ path1 <> path2)
  /\ _get_absolute_path rt cfg INPUT (Sample.b "/data/a")
     = _get_absolute_path rt cfg INPUT (Sample.b "a").
Proof.
  intros rt data cfg. split; [| reflexivity].
  destruct (relative_elements_have_distinct_paths rt cfg INPUT data
              (Sample.b "a") (Sample.b "b") "a" "b"
              eq_refl eq_refl eq_refl eq_refl eq_refl)
    as [path1 [path2 [H1 [H2 [_ [_ Hiff]]]]]].
  exists path1, path2. split; [exact H1 | split; [exact H2 |]].
  intros Heq. apply Hiff in Heq. discriminate Heq.
Defined.

(** ** Several inputs that all skip the Klio read *)

Lemma per_input_loop_all_skipped (rt : Runtime) (lib : KlioLib)
    (config : KlioConfig) (pipeline : Pipeline)
    (inputs : list (string * EventInput.t)) :
  (forall i, In i inputs -> EventInput.skip_klio_read (snd i) = true) ->
  forall pcolls pass_thrus,
  exists pcolls',
    per_input_loop rt lib config pipeline inputs pcolls pass_thrus
    = Ok (pcolls', pass_thrus).
Proof.
  induction inputs as [| [input_name input_conf] inputs IH];
    intros Hskip pcolls pass_thrus.
  - exists pcolls. reflexivity.
  - cbn [per_input_loop].
    rewrite generate_pcoll_skip_read
      by (apply (Hskip (input_name, input_conf)); left; reflexivity).
    cbn [bind]. apply IH. intros i Hi. apply Hskip. right. exact Hi.
Qed.

(** X11. A job with several event inputs that all set [skip_klio_read]
    cannot be assembled: no input contributes a pass-thru branch, the
    flatten of the empty list raises [ValueError], and [_setup_pipeline]
    fails with it before the run callable is called. *)
Theorem all_inputs_skipped_cannot_be_merged
    (rt : Runtime) (lib : KlioLib) (config : KlioConfig) (pipeline : Pipeline)
    (run_callable : RunCallable) :
  (1 < List.length (event_inputs (job_config config)))%nat ->
  (forall ev, In ev (event_inputs (job_config config)) ->
              EventInput.skip_klio_read ev = true) ->
  namedtuple rt (map fst (_generate_input_conf_names config))
  = Ok (map fst (_generate_input_conf_names config)) ->
  _get_run_callable rt = Ok run_callable ->
  exists msg,
    _generate_pcoll_per_input rt lib config pipeline = Raise (ValueError msg)
    /\ _setup_pipeline rt lib config pipeline = Raise (ValueError msg).
Proof.
  intros Hmulti Hskip Hnames Hcallable.
  assert (Hvalues : forall i, In i (_generate_input_conf_names config) ->
                              EventInput.skip_klio_read (snd i) = true).
  { intros i Hi. apply Hskip.
    unfold _generate_input_conf_names in Hi.
    destruct (conf_names_invariant
                (enumerate_from 0 (event_inputs (job_config config))) []
                (event_inputs (job_config config))) as [_ [Hin _]].
    - constructor.
    - intros kv [].
    - intros item. apply enumerate_from_snd.
    - exact (Hin i Hi). }
  destruct (per_input_loop_all_skipped rt lib config pipeline _ Hvalues [] [])
    as [pcolls Hloop].
  eexists.
  assert (Hper : _generate_pcoll_per_input rt lib config pipeline
                 = Raise (ValueError
                     "requires a pipeline to be specified as there are no deferred inputs.")).
  { unfold _generate_pcoll_per_input. rewrite Hnames. cbn [bind].
    rewrite Hloop. reflexivity. }
  split; [exact Hper |].
  unfold _setup_pipeline, _has_event_inputs, _has_multi_event_inputs.
  rewrite Hcallable. cbn [bind].
  apply Nat.ltb_lt in Hmulti. rewrite Hmulti.
  replace (0 <? List.length (event_inputs (job_config config)))%nat with true
    by (symmetry; apply Nat.ltb_lt; apply Nat.ltb_lt in Hmulti; lia).
  cbn [negb]. rewrite Hper. reflexivity.
Qed.

Lemma all_inputs_skipped_cannot_be_merged_witness :
  let rt := Sample.runtime Sample.store Sample.sources in
  let cfg := Sample.job [Sample.file_in true "first.txt";
                         Sample.file_in true "second.txt"]
               [Sample.file_out "out"]
               [Sample.data_in false] [Sample.data_out false] in
  exists msg, _setup_pipeline rt SpecLib.lib cfg BeamPipeline
              = Raise (ValueError msg).
Proof.
  intros rt cfg.
  destruct (all_inputs_skipped_cannot_be_merged rt SpecLib.lib cfg BeamPipeline
              Sample.run) as [msg [_ H]].
  - cbn. lia.
  - intros ev [<- | [<- | []]]; reflexivity.
  - reflexivity.
  - reflexivity.
  - exists msg. exact H.
Defined.

(** ** The BigQuery reader and writer *)

Lemma existsb_eqb_In (key : string) (columns : list string) :
  existsb (String.eqb key) columns = true <-> In key columns.
Proof.
  rewrite existsb_exists. split.
  - intros [c [Hin Heq]]. apply String.eqb_eq in Heq. subst c. exact Hin.
  - intros Hin. exists key. split; [exact Hin | apply String.eqb_refl].
Qed.

Lemma selected_columns_agree (columns columns' : list string) (row : Row) :
  (forall key, In key (map fst row) -> (In key columns <-> In key columns')) ->
  select_columns columns row = select_columns columns' row.
Proof.
  intros Hagree. apply filter_ext_in. intros [k v] Hin. cbn [fst].
  assert (Hk : In k (map fst row)) by (apply in_map_iff; exists (k, v); auto).
  specialize (Hagree k Hk).
  destruct (existsb (String.eqb k) columns) eqn:E;
    destruct (existsb (String.eqb k) columns') eqn:E'; try reflexivity.
  - apply existsb_eqb_In in E. apply Hagree in E.
    apply existsb_eqb_In in E. congruence.
  - apply existsb_eqb_In in E'. apply Hagree in E'.
    apply existsb_eqb_In in E'. congruence.
Qed.

Lemma select_all_columns (columns : list string) (row : Row) :
  (forall key, In key (map fst row) -> In key columns) ->
  select_columns columns row = row.
Proof.
  intros Hall. unfold select_columns. induction row as [| [k v] row IH];
    [reflexivity |].
  cbn [filter fst].
  assert (Hk : existsb (String.eqb k) columns = true).
  { apply existsb_eqb_In. apply Hall. left. reflexivity. }
  rewrite Hk. f_equal. apply IH. intros key Hkey. apply Hall. right. exact Hkey.
Qed.

Lemma dict_find_lacking (row : Row) (column : string) :
  ~ In column (map fst row) -> dict_find row column = None.
Proof.
  induction row as [| [k v] row IH]; intros Hlacks; [reflexivity |].
  cbn [dict_find]. cbn [map fst In] in Hlacks.
  destruct (String.eqb_spec k column) as [-> | _]; [exfalso; auto |].
  apply IH. auto.
Qed.

(** X12. Column selection of the BigQuery reader.  With two or more
    selected columns the outcome of a row, element or failure, depends only
    on which of the row's keys are selected: order, repetitions and
    selected columns that the row lacks make no difference; such a row
    fails only with what [json.dumps] raised on the selected items, never
    with [KeyError]; and when every key of the row is selected the outcome
    is that of a reader without column selection.  With one selected column
    that the row lacks, the row fails with [KeyError], whatever
    [json.dumps] does. *)
Theorem bigquery_columns_are_a_set
    (json_dumps : Row -> result string) (row : Row) :
  (forall c1 c2 more d1 d2 more',
     (forall key, In key (map fst row) ->
                  (In key (c1 :: c2 :: more) <-> In key (d1 :: d2 :: more'))) ->
     bq_row_element json_dumps (Some (c1 :: c2 :: more)) row
     = bq_row_element json_dumps (Some (d1 :: d2 :: more')) row)
  /\ (forall c1 c2 more err,
        bq_row_element json_dumps (Some (c1 :: c2 :: more)) row = inl err ->
        exists e, err = ReaderJsonError e
                  /\ json_dumps (select_columns (c1 :: c2 :: more) row)
                     = Raise e)
  /\ (forall c1 c2 more,
        (forall key, In key (map fst row) -> In key (c1 :: c2 :: more)) ->
        bq_row_element json_dumps (Some (c1 :: c2 :: more)) row
        = bq_row_element json_dumps None row)
  /\ (forall column,
        ~ In column (map fst row) ->
        bq_row_element json_dumps (Some [column]) row
        = inl (ReaderKeyError column)
        /\ forall other,
             bq_row_element json_dumps (Some [column; other]) row
             = bq_row_element json_dumps (Some [other; other]) row).
Proof.
  split; [| split; [| split]].
  - intros c1 c2 more d1 d2 more' Hagree. cbn [bq_row_element].
    rewrite (selected_columns_agree _ _ row Hagree). reflexivity.
  - intros c1 c2 more err. cbn [bq_row_element]. unfold dumps_bytes.
    destruct (json_dumps (select_columns (c1 :: c2 :: more) row)) as [text | e];
      [discriminate |].
    intros [= <-]. exists e. split; reflexivity.
  - intros c1 c2 more Hall. cbn [bq_row_element].
    rewrite (select_all_columns _ row Hall). reflexivity.
  - intros column Hlacks. split.
    + cbn [bq_row_element]. rewrite (dict_find_lacking row column Hlacks).
      reflexivity.
    + intros other. cbn [bq_row_element].
      rewrite (selected_columns_agree [column; other] [other; other] row);
        [reflexivity |].
      intros key Hkey. cbn [In]. split.
      * intros [<- | [<- | []]]; [contradiction | auto].
      * intros [<- | [<- | []]]; auto.
Qed.

Lemma bigquery_columns_are_a_set_witness :
  let json_dumps := fun data : Row =>
    if forallb (fun kv => match snd kv with BqStr _ => true | _ => false end)
         data
    then Ok "{...}"
    else Raise (ValueError "Circular reference detected") in
  let row := [("id", BqStr "1"); ("tree", BqOther "[[...]]")] in
  bq_row_element json_dumps (Some ["absent"; "id"; "id"]) row
  = inr (list_byte_of_string "{...}")
  /\ bq_row_element json_dumps (Some ["tree"; "id"]) row
     = inl (ReaderJsonError (ValueError "Circular reference detected"))
  /\ bq_row_element json_dumps (Some ["absent"]) row
     = inl (ReaderKeyError "absent").
Proof.
  intros json_dumps row.
  destruct (bigquery_columns_are_a_set json_dumps row)
    as [Hset [_ [Hall Hlacks]]].
  split; [| split].
  - rewrite (Hset "absent" "id" ["id"] "id" "id" []); [reflexivity |].
    intros key [<- | [<- | []]]; cbn [In]; split;
      intros H; repeat (destruct H as [H | H]; try discriminate H; auto).
  - rewrite (Hall "tree" "id" []); [reflexivity |].
    intros key [<- | [<- | []]]; cbn [In]; auto.
  - apply Hlacks. cbn [map fst In]. intros [H | [H | []]]; discriminate H.
Defined.

(** X13. [KlioWriteToBigQuery] unwraps the payload and nothing else: for a
    codec that parses what it serialized, the data of a serialized message
    is [json.loads] of its payload, so a message as the text source, the
    avro source or the BigQuery reader builds it, with the data in the
    element and an empty payload, is unwrapped as [json.loads] of the empty
    byte string. *)
Theorem unwrap_reads_the_payload {J Record_ : Type}
    (lib : KlioLib) (json_loads : bytes -> result J) :
  (forall m, ParseFromString lib (SerializeToString lib m) = Ok m) ->
  (forall m, unwrap lib json_loads (SerializeToString lib m)
             = json_loads (payload (data_v2 m)))
  /\ (forall record,
        unwrap lib json_loads (read_record lib record) = json_loads [])
  /\ (forall v2 (json_dumps : Record_ -> string) record,
        unwrap lib json_loads (avro_read_record lib v2 json_dumps record)
        = json_loads [])
  /\ (forall v2 json_dumps columns rows message,
        In message (fst (bq_iter lib v2 json_dumps columns rows)) ->
        unwrap lib json_loads message = json_loads []).
Proof.
  intros Hparse.
  assert (Hany : forall m, unwrap lib json_loads (SerializeToString lib m)
                           = json_loads (payload (data_v2 m))).
  { intros m. unfold unwrap. rewrite Hparse. reflexivity. }
  split; [exact Hany | split; [| split]].
  - intros record. unfold read_record. rewrite Hany. reflexivity.
  - intros v2 json_dumps record. unfold avro_read_record.
    rewrite Hany. reflexivity.
  - intros v2 json_dumps columns rows. induction rows as [| row rows IH];
      intros message; cbn [bq_iter].
    + intros [].
    + destruct (bq_row_element json_dumps columns row) as [err | elem];
        [intros [] |].
      destruct (bq_iter lib v2 json_dumps columns rows) as [messages err].
      cbn [fst In] in *. intros [<- | Hin]; [| exact (IH _ Hin)].
      rewrite Hany. reflexivity.
Qed.

Lemma unwrap_reads_the_payload_witness :
  let json_loads := fun raw : bytes =>
    match raw with
    | [] => Raise (ValueError "Expecting value")
    | _ => Ok raw
    end in
  unwrap SpecLib.lib json_loads (read_record SpecLib.lib "a.wav")
  = Raise (ValueError "Expecting value").
Proof.
  intros json_loads.
  destruct (@unwrap_reads_the_payload bytes unit SpecLib.lib json_loads
              CodecFacts.decode_encode) as [_ [Htext _]].
  rewrite Htext. reflexivity.
Defined.

(** ** [clean_logs] *)

Lemma split_crlf_other (c : ascii) (rest : string) :
  Ascii.eqb c "013" = false ->
  split_crlf (String c rest)
  = match split_crlf rest with
    | piece :: pieces => String c piece :: pieces
    | [] => [String c EmptyString]
    end.
Proof.
  intros Hc. cbn [split_crlf]. rewrite Hc. cbn [andb].
  destruct rest; reflexivity.
Qed.

Lemma split_crlf_frame (object rest : string) :
  has_no_cr object = true ->
  split_crlf (object ++ CRLF ++ rest)%string = object :: split_crlf rest.
Proof.
  unfold has_no_cr. induction object as [| c object IH]; intros Hclean.
  - reflexivity.
  - cbn [str_forallb] in Hclean. apply andb_true_iff in Hclean.
    destruct Hclean as [Hc Hclean]. apply negb_true_iff in Hc.
    cbn [String.append]. rewrite (split_crlf_other _ _ Hc).
    change (object ++ String "013" (String "010" rest))%string
      with (object ++ CRLF ++ rest)%string.
    rewrite (IH Hclean). reflexivity.
Qed.

Lemma clean_line_of_framed (objects : list string) :
  Forall (fun o => has_no_cr o = true) objects ->
  clean_line (crlf_terminated objects) = filter is_log_object objects.
Proof.
  unfold clean_line. induction 1 as [| object objects Hclean _ IH].
  - reflexivity.
  - cbn [crlf_terminated]. rewrite (split_crlf_frame _ _ Hclean).
    cbn [filter]. rewrite IH. reflexivity.
Qed.

(** X14. [clean_logs] undoes the framing of the build log: from lines,
    given as text or as bytes that decode, that each hold log objects
    without carriage returns, every object followed by CR LF, it yields
    exactly those objects, in order, except the empty ones and the ones
    that only wrap a newline, and it ends without an exception. *)
Theorem clean_logs_recovers_objects
    (decode_utf8 : bytes -> result string)
    (log_generator : list LogLine) (groups : list (list string)) :
  Forall2
    (fun line group =>
       match line with
       | BytesLine raw => decode_utf8 raw
       | StrLine s => Ok s
       end = Ok (crlf_terminated group)
       /\ Forall (fun o => has_no_cr o = true) group)
    log_generator groups ->
  clean_logs decode_utf8 log_generator
  = (filter is_log_object (List.concat groups), None).
Proof.
  induction 1 as [| line group lines groups [Htext Hgroup] _ IH];
    [reflexivity |].
  cbn [clean_logs List.concat]. rewrite Htext, IH.
  rewrite (clean_line_of_framed group Hgroup), filter_app. reflexivity.
Qed.

Lemma clean_logs_recovers_objects_witness :
  clean_logs (fun raw => Ok (string_of_list_byte raw))
    [BytesLine
       (list_byte_of_string (crlf_terminated ["{step 1}"; newline_object]));
     StrLine (crlf_terminated ["{step 2}"; ""; "{done}"])]
  = (["{step 1}"; "{step 2}"; "{done}"], None).
Proof.
  etransitivity.
  - apply (clean_logs_recovers_objects
             (fun raw => Ok (string_of_list_byte raw)) _
             [["{step 1}"; newline_object]; ["{step 2}"; ""; "{done}"]]).
    repeat constructor.
  - reflexivity.
Defined.

(** ** [get_docker_image_client] *)

(** X15. When the worker image is built: [get_docker_image_client] calls
    the build exactly when Docker answered the ping, the job's Dockerfile
    is present, and the image is either not found or found while
    [force_build] is set; an API error of the image lookup ends in
    [SystemExit(1)] without a build, also under [force_build]; and a
    returned image name is always [image_name:image_tag]. *)
Theorem docker_build_happens_when_needed
    (host : DockerHost) (job_dir image_tag image_name : string)
    (force_build : bool) :
  let image := (image_name ++ ":" ++ image_tag)%string in
  let outcome :=
    get_docker_image_client host job_dir image_tag image_name force_build in
  (In (Built job_dir image_name image_tag) (fst outcome)
   <-> from_env host = Ok tt
       /\ docker_ping host = PingReturned
       /\ os_path_exists host (job_dir ++ "/Dockerfile")%string = true
       /\ (images_get host image = ImageNotFound
           \/ (images_get host image = ImageReturned /\ force_build = true)))
  /\ (forall detail,
        from_env host = Ok tt ->
        docker_ping host = PingReturned ->
        os_path_exists host (job_dir ++ "/Dockerfile")%string = true ->
        images_get host image = ImagesAPIError detail ->
        snd outcome = Raise (SystemExit 1))
  /\ (forall returned, snd outcome = Ok returned -> returned = image).
Proof.
  cbv zeta. unfold get_docker_image_client, check_docker_connection,
    check_dockerfile_present, docker_image_exists, and_then.
  destruct (from_env host) as [[] | e0];
    [| cbn; repeat split; intros; intuition discriminate].
  destruct (docker_ping host);
    try (cbn; repeat split; intros; intuition discriminate).
  destruct (os_path_exists host (job_dir ++ "/Dockerfile")%string);
    [| cbn; repeat split; intros; intuition discriminate].
  cbn [negb].
  destruct (images_get host (image_name ++ ":" ++ image_tag)%string);
    try (cbn; repeat split; intros; intuition discriminate).
  - destruct force_build; cbn [negb orb].
    + destruct (build_image host job_dir image_name image_tag) as [[] | e];
        cbn; repeat split; intros; try congruence; intuition discriminate.
    + cbn. repeat split; intros; try congruence; intuition discriminate.
  - cbn [negb orb].
    destruct (build_image host job_dir image_name image_tag) as [[] | e];
      cbn; repeat split; intros; try congruence; intuition discriminate.
Qed.

(** ** [KlioPipeline.run] *)

Lemma run_without_update (launcher : Launcher) (rt : Runtime) (lib : KlioLib)
    (config : KlioConfig) (pipeline_opts : PackagingOptions)
    (runtime_conf : RuntimeConf) (attempt : nat) :
  update runtime_conf <> Some true ->
  exists outcome, forall fuel,
    run (S fuel) launcher rt lib config pipeline_opts runtime_conf attempt
    = Some outcome.
Proof.
  intros Hupdate. cbn [run].
  destruct (_verify_packaging pipeline_opts); [| eexists; reflexivity].
  destruct (make_pipeline launcher attempt runtime_conf) as [pipeline | e];
    [| eexists; reflexivity].
  destruct (_setup_pipeline rt lib config pipeline); [| eexists; reflexivity].
  destruct (pipeline_run launcher attempt) as [| msg | e].
  - destruct (direct_runner runtime_conf || blocking runtime_conf);
      eexists; reflexivity.
  - destruct (update runtime_conf) as [[|] |]; [congruence | |];
      eexists; reflexivity.
  - eexists; reflexivity.
Qed.

(** X16. [run] retries at most once: whatever the packaging check, the
    assembly and every call of [pipeline.run()] do, [run] ends after at most
    two attempts; unless [update] is set to true it ends after the first;
    and when the first attempt fails with the "No running job found with
    name" [ValueError] under [update], the result is that of one further
    attempt made with [update] cleared. *)
Theorem run_retries_at_most_once
    (launcher : Launcher) (rt : Runtime) (lib : KlioLib) (config : KlioConfig)
    (pipeline_opts : PackagingOptions) (runtime_conf : RuntimeConf)
    (attempt : nat) :
  (exists outcome, forall extra,
     run (2 + extra) launcher rt lib config pipeline_opts runtime_conf attempt
     = Some outcome)
  /\ (update runtime_conf <> Some true ->
      exists outcome, forall extra,
        run (1 + extra) launcher rt lib config pipeline_opts runtime_conf attempt
        = Some outcome)
  /\ (forall pipeline assembled msg,
        _verify_packaging pipeline_opts = Ok tt ->
        make_pipeline launcher attempt runtime_conf = Ok pipeline ->
        _setup_pipeline rt lib config pipeline = Ok assembled ->
        pipeline_run launcher attempt = RunValueError msg ->
        update runtime_conf = Some true ->
        str_contains "No running job found with name" msg = true ->
        forall extra,
          run (2 + extra) launcher rt lib config pipeline_opts runtime_conf
            attempt
          = run 1 launcher rt lib config pipeline_opts
              (mkRuntimeConf (direct_runner runtime_conf) None
                 (blocking runtime_conf) (image_tag runtime_conf))
              (S attempt)).
Proof.
  split; [| split; [apply run_without_update |]]; cycle 1.
  { intros pipeline assembled msg Hverify Hmake Hsetup Hrun Hupdate Hmsg extra.
    destruct (run_without_update launcher rt lib config pipeline_opts
                (mkRuntimeConf (direct_runner runtime_conf) None
                   (blocking runtime_conf) (image_tag runtime_conf))
                (S attempt)) as [second Hsecond]; [discriminate |].
    rewrite (Hsecond 0%nat), <- (Hsecond extra).
    cbn [Nat.add run].
    rewrite Hverify, Hmake, Hsetup, Hrun, Hupdate, Hmsg. reflexivity. }
  destruct (run_without_update launcher rt lib config pipeline_opts
              (mkRuntimeConf (direct_runner runtime_conf) None
                 (blocking runtime_conf) (image_tag runtime_conf))
              (S attempt)) as [second Hsecond]; [discriminate |].
  cbn [Nat.add].
  destruct (_verify_packaging pipeline_opts) eqn:Hverify;
    [| exists (Raise e); intros extra; cbn [run]; rewrite Hverify; reflexivity].
  destruct (make_pipeline launcher attempt runtime_conf) as [pipeline | e]
    eqn:Hmake;
    [| exists (Raise e); intros extra; cbn [run];
       rewrite Hverify, Hmake; reflexivity].
  destruct (_setup_pipeline rt lib config pipeline) as [assembled | e]
    eqn:Hsetup;
    [| exists (Raise e); intros extra; cbn [run];
       rewrite Hverify, Hmake, Hsetup; reflexivity].
  destruct (pipeline_run launcher attempt) as [| msg | e] eqn:Hrun.
  - exists (if direct_runner runtime_conf || blocking runtime_conf
            then wait_until_finish launcher attempt else Ok tt).
    intros extra. cbn [run]. rewrite Hverify, Hmake, Hsetup, Hrun.
    destruct (direct_runner runtime_conf || blocking runtime_conf); reflexivity.
  - destruct (match update runtime_conf with Some true => true | _ => false end
              && str_contains "No running job found with name" msg) eqn:Hretry.
    + exists second. intros extra.
      change (run (S (S extra)) launcher rt lib config pipeline_opts
                runtime_conf attempt)
        with (match _verify_packaging pipeline_opts with
              | Raise e => Some (Raise e)
              | Ok _ =>
              match make_pipeline launcher attempt runtime_conf with
              | Raise e => Some (Raise e)
              | Ok pipeline =>
              match _setup_pipeline rt lib config pipeline with
              | Raise e => Some (Raise e)
              | Ok _ =>
              match pipeline_run launcher attempt with
              | RunValueError msg =>
                  if match update runtime_conf with
                     | Some true => true
                     | _ => false
                     end
                     && str_contains "No running job found with name" msg
                  then
                    run (S extra) launcher rt lib config pipeline_opts
                      (mkRuntimeConf (direct_runner runtime_conf) None
                         (blocking runtime_conf) (image_tag runtime_conf))
                      (S attempt)
                  else Some (Raise (SystemExit 1))
              | RunRaised e => Some (Raise e)
              | RunReturned =>
                  if direct_runner runtime_conf || blocking runtime_conf
                  then Some (wait_until_finish launcher attempt)
                  else Some (Ok tt)
              end end end end).
      rewrite Hverify, Hmake, Hsetup, Hrun, Hretry. apply Hsecond.
    + exists (Raise (SystemExit 1)). intros extra. cbn [run].
      rewrite Hverify, Hmake, Hsetup, Hrun, Hretry. reflexivity.
  - exists (Raise e). intros extra. cbn [run].
    rewrite Hverify, Hmake, Hsetup, Hrun. reflexivity.
Qed.
